(** * rosidl_pycommon: template-driven generation of interface sources

    A shallow embedding of [rosidl_pycommon/__init__.py] and the properties
    its specification states about it.

    Conventions of the embedding.
    - Python [str] values are [string]s; a character is a code point below
      256, and [str.lower] is modelled on exactly those code points.
    - Modification times are integers (only their order is ever used).
    - A file holds its text as it was written; reading it in text mode
      translates line ends ([universal_newlines]).
    - The file system, the two module globals ([template_prefix_path] and
      [interpreter]), the dictionaries handed around by reference and the
      diagnostic stream make up one explicit [State]; every function that
      touches them is a computation in the monad [M] of state and
      exceptions.
    - The template engine, the IDL parser, the JSON reader and the
      conversions of [%] other than [%s] and [%%] are external
      collaborators: they are fields of the class [Collaborators]. *)

From Stdlib Require Import ZArith NArith Ascii String List Bool Lia.
From stdpp Require Import base option gmap sets list strings.

Open Scope string_scope.
Open Scope list_scope.
Open Scope Z_scope.

(* ===================================================================== *)
(** ** Characters and the naming normalizer                               *)
(* ===================================================================== *)

Module Naming.

(** Code point of a character. *)
Definition code (c : ascii) : N := N_of_ascii c.

Definition in_range (lo hi : N) (c : ascii) : bool :=
  ((lo <=? code c) && (code c <=? hi))%N.

(** The character classes of the two patterns: [[A-Z]], [[a-z]],
    [[a-z0-9]] and [.] (anything but a line feed). *)
Definition is_upper (c : ascii) : bool := in_range 65 90 c.
Definition is_lower (c : ascii) : bool := in_range 97 122 c.
Definition is_digit (c : ascii) : bool := in_range 48 57 c.
Definition is_lower_or_digit (c : ascii) : bool := is_lower c || is_digit c.
Definition is_dot (c : ascii) : bool := negb (code c =? 10)%N.

(** [str.lower] on one code point below 256: the ASCII capitals and the
    Latin-1 capitals (192..222 without the multiplication sign 215) move up
    by 32, everything else stays. *)
Definition lower_char (c : ascii) : ascii :=
  if is_upper c || (in_range 192 222 c && negb (code c =? 215)%N)
  then ascii_of_N (code c + 32)
  else c.

Fixpoint lower (s : string) : string :=
  match s with
  | EmptyString => EmptyString
  | String c tl => String (lower_char c) (lower tl)
  end.

(** The longest prefix of [s] made of [[a-z]] characters, and what follows. *)
Fixpoint span_lower (s : string) : string * string :=
  match s with
  | String c tl =>
      if is_lower c
      then let '(run, rest) := span_lower tl in (String c run, rest)
      else (EmptyString, s)
  | EmptyString => (EmptyString, EmptyString)
  end.

(** [re.sub(pattern, repl, s)] for a pattern that never matches the empty
    string.  [match_at s] tries the pattern at the head of [s] and returns
    the replacement text and the unmatched remainder.  The scan goes left
    to right; after a match it resumes behind the match, otherwise it copies
    one character.  [fuel] bounds the number of scan steps; [String.length s]
    steps always suffice. *)
Fixpoint re_sub_from (match_at : string -> option (string * string))
    (fuel : nat) (s : string) : string :=
  match fuel with
  | O => s
  | S n =>
      match match_at s with
      | Some (repl, rest) => repl +:+ re_sub_from match_at n rest
      | None =>
          match s with
          | EmptyString => EmptyString
          | String c tl => String c (re_sub_from match_at n tl)
          end
      end
  end.

Definition re_sub (match_at : string -> option (string * string))
    (s : string) : string :=
  re_sub_from match_at (String.length s) s.

(** ['(.)([A-Z][a-z]+)'] replaced by [r'\1_\2']: group 1 is any character
    but a line feed, group 2 a capital followed by the longest run of one or
    more small letters. *)
Definition match_upper_lower (s : string) : option (string * string) :=
  match s with
  | String c (String u (String l tl)) =>
      if is_dot c && is_upper u && is_lower l
      then let '(run, rest) := span_lower tl in
           Some (String c (String "_" (String u (String l run))), rest)
      else None
  | _ => None
  end.

(** ['([a-z0-9])([A-Z])'] replaced by [r'\1_\2']. *)
Definition match_lower_upper (s : string) : option (string * string) :=
  match s with
  | String c (String u tl) =>
      if is_lower_or_digit c && is_upper u
      then Some (String c (String "_" (String u EmptyString)), tl)
      else None
  | _ => None
  end.

Definition convert_camel_case_to_lower_case_underscore (value : string)
    : string :=
  let value := re_sub match_upper_lower value in
  let value := re_sub match_lower_upper value in
  lower value.

(** No character of [s] is in [[A-Z]]. *)
Fixpoint no_upper (s : string) : bool :=
  match s with
  | EmptyString => true
  | String c tl => negb (is_upper c) && no_upper tl
  end.

(** A pattern that needs a capital among the first two characters finds
    nothing in a text without capitals. *)
Definition needs_upper (match_at : string -> option (string * string)) : Prop :=
  forall s, no_upper s = true -> match_at s = None.

(** A pattern that consumes at least one character when it matches. *)
Definition consumes (match_at : string -> option (string * string)) : Prop :=
  forall s repl rest, match_at s = Some (repl, rest) ->
    (String.length rest < String.length s)%nat.

End Naming.

(* ===================================================================== *)
(** ** Paths: [os.path] on strings and [pathlib.Path]                     *)
(* ===================================================================== *)

Module Paths.

Definition slash : ascii := "/"%char.

Fixpoint all_slashes (s : string) : bool :=
  match s with
  | EmptyString => true
  | String c tl => Ascii.eqb c slash && all_slashes tl
  end.

(** [s.rstrip('/')]. *)
Fixpoint rstrip_slash (s : string) : string :=
  match s with
  | EmptyString => EmptyString
  | String c tl =>
      let tl' := rstrip_slash tl in
      match tl' with
      | EmptyString => if Ascii.eqb c slash then EmptyString else String c EmptyString
      | _ => String c tl'
      end
  end.

(** [s.split(sep, 1)]: [None] when [sep] does not occur (a one-element
    list in Python), otherwise the text before and after its first
    occurrence. *)
Fixpoint split_first (sep : ascii) (s : string) : option (string * string) :=
  match s with
  | EmptyString => None
  | String c tl =>
      if Ascii.eqb c sep then Some (EmptyString, tl)
      else match split_first sep tl with
           | Some (a, b) => Some (String c a, b)
           | None => None
           end
  end.

(** [s.rsplit(sep, 1)]: the same around the last occurrence. *)
Fixpoint split_last (sep : ascii) (s : string) : option (string * string) :=
  match s with
  | EmptyString => None
  | String c tl =>
      match split_last sep tl with
      | Some (a, b) => Some (String c a, b)
      | None => if Ascii.eqb c sep then Some (EmptyString, tl) else None
      end
  end.

(** [s.split(sep)]. *)
Fixpoint split_on (sep : ascii) (s : string) : list string :=
  match s with
  | EmptyString => [EmptyString]
  | String c tl =>
      if Ascii.eqb c sep then EmptyString :: split_on sep tl
      else match split_on sep tl with
           | x :: xs => String c x :: xs
           | [] => [String c EmptyString]
           end
  end.

Definition starts_with_slash (s : string) : bool :=
  match s with
  | String c _ => Ascii.eqb c slash
  | EmptyString => false
  end.

Fixpoint ends_with_slash (s : string) : bool :=
  match s with
  | EmptyString => false
  | String c EmptyString => Ascii.eqb c slash
  | String _ tl => ends_with_slash tl
  end.

(** [os.path.dirname] (posixpath): everything up to the last slash, with
    trailing slashes removed unless nothing else is left. *)
Definition os_path_dirname (p : string) : string :=
  match split_last slash p with
  | None => EmptyString
  | Some (a, _) =>
      if all_slashes a then a +:+ "/" else rstrip_slash a
  end.

(** [os.path.basename]: everything behind the last slash. *)
Definition os_path_basename (p : string) : string :=
  match split_last slash p with
  | None => p
  | Some (_, b) => b
  end.

(** One step of [os.path.join]. *)
Definition os_path_join (path b : string) : string :=
  if starts_with_slash b then b
  else if String.eqb path EmptyString || ends_with_slash path then path +:+ b
  else path +:+ "/" +:+ b.

(** A [pathlib.Path] (pure POSIX flavour): whether it is anchored at the
    root, and its named segments; empty and ["."] segments are dropped when
    a path is built from a string. *)
Record Path := mkPath { anchored : bool; segs : list string }.

Definition keep_segment (x : string) : bool :=
  negb (String.eqb x EmptyString) && negb (String.eqb x ".").

Definition Path_of (s : string) : Path :=
  mkPath (starts_with_slash s) (filter (fun x => Is_true (keep_segment x)) (split_on slash s)).

Fixpoint join_segs (l : list string) : string :=
  match l with
  | [] => EmptyString
  | [x] => x
  | x :: tl => x +:+ "/" +:+ join_segs tl
  end.

(** [str(p)]. *)
Definition Path_str (p : Path) : string :=
  match anchored p, segs p with
  | false, [] => "."
  | false, l => join_segs l
  | true, l => "/" +:+ join_segs l
  end.

(** [p / name]. *)
Definition Path_div (p : Path) (name : string) : Path :=
  if starts_with_slash name then Path_of name
  else mkPath (anchored p) (segs p ++ segs (Path_of name)).

(** [p.parent], [p.name], [p.parts]. *)
Definition Path_parent (p : Path) : Path := mkPath (anchored p) (removelast (segs p)).
Definition Path_name (p : Path) : string := List.last (segs p) EmptyString.
Definition Path_parts (p : Path) : list string :=
  (if anchored p then ["/"] else []) ++ segs p.

(** [p.suffix] and [p.stem]: the name is cut at its last dot when that dot
    is neither its first nor its last character. *)
Definition name_cut (name : string) : option (string * string) :=
  match split_last "."%char name with
  | Some (a, b) =>
      if String.eqb a EmptyString || String.eqb b EmptyString then None
      else Some (a, b)
  | None => None
  end.

Definition Path_suffix (p : Path) : string :=
  match name_cut (Path_name p) with
  | Some (_, b) => "." +:+ b
  | None => EmptyString
  end.

Definition Path_stem (p : Path) : string :=
  match name_cut (Path_name p) with
  | Some (a, _) => a
  | None => Path_name p
  end.

#[global] Instance Path_eq_dec : EqDecision Path.
Proof. solve_decision. Defined.

End Paths.

Export Paths.

(* ===================================================================== *)
(** ** Exceptions, values and the program state                           *)
(* ===================================================================== *)

(** The exception classes that occur; all of them derive from [Exception].
    [OtherError] stands for any further subclass of [Exception], by name
    (errors of the parser, errors raised by template code). *)
Inductive exn_class :=
| RuntimeError | NameError | TypeError | ValueError | KeyError | IndexError
| AssertionError | AttributeError | RecursionError
| FileNotFoundError | FileExistsError | NotADirectoryError
| JSONDecodeError
| OtherError (name : string).

#[global] Instance exn_class_eq_dec : EqDecision exn_class.
Proof. solve_decision. Defined.

(** [e.__class__.__name__]. *)
Definition class_name (c : exn_class) : string :=
  match c with
  | RuntimeError => "RuntimeError" | NameError => "NameError"
  | TypeError => "TypeError" | ValueError => "ValueError"
  | KeyError => "KeyError" | IndexError => "IndexError"
  | AssertionError => "AssertionError" | AttributeError => "AttributeError"
  | RecursionError => "RecursionError"
  | FileNotFoundError => "FileNotFoundError"
  | FileExistsError => "FileExistsError"
  | NotADirectoryError => "NotADirectoryError"
  | JSONDecodeError => "JSONDecodeError"
  | OtherError name => name
  end.

(** The subclasses of [OSError] (of which [IOError] is an alias). *)
Definition is_OSError (c : exn_class) : bool :=
  match c with
  | FileNotFoundError | FileExistsError | NotADirectoryError => true
  | _ => false
  end.

(** An exception: its class and [str(e)]. *)
Record exn := mkExn { exn_cls : exn_class; exn_str : string }.

#[global] Instance exn_eq_dec : EqDecision exn.
Proof. solve_decision. Defined.

(** What a call produces: a value, or a raised exception. *)
Inductive outcome (A : Type) :=
| Return (a : A)
| Raise (e : exn).
Arguments Return {A} a.
Arguments Raise {A} e.

(** The values stored in a render context. *)
Inductive value :=
| VNone
| VBool (b : bool)
| VStr (s : string)
| VPath (p : Path)
| VTemplateFn                   (* the function object [_expand_template] *)
| VTree (id : N)                (* a parsed IDL tree, opaque *)
| VJson (text : string).        (* structured data read from a side file, opaque *)

#[global] Instance value_eq_dec : EqDecision value.
Proof. solve_decision. Defined.

Definition str_of_value (v : value) : string :=
  match v with
  | VNone => "None"
  | VBool true => "True"
  | VBool false => "False"
  | VStr s => s
  | VPath p => Path_str p
  | VTemplateFn => "<function _expand_template>"
  | VTree _ => "<tree>"
  | VJson text => text
  end.

(** What the template engine does with a template text, one action after
    the other.  The syntax that spells these actions is the engine's. *)
Inductive instr :=
| Emit (text : string)                    (* literal text, to the sink *)
| Subst (name : string)                   (* the value of a variable, to the sink *)
| Assign (name : string) (v : value)      (* a binding made in the locals *)
| Include (template_name : string) (kwargs : list (string * value))
                                          (* the call TEMPLATE(template_name, **kwargs) *)
| Fail (e : exn).                         (* code that raises *)

(** The parsed generator-arguments file.  [args['key']] raises [KeyError]
    on an absent key, [args.get('key', [])] reads it as the empty list. *)
Record Manifest := mkManifest {
  template_dir : option string;
  output_dir : option string;
  package_name : option string;
  target_dependencies : option (list string);
  type_description_tuples : option (list string);
  ros_interface_files : option (list string);
  idl_tuples : option (list string)
}.

(** The external collaborators. *)
Class Collaborators := {
  (** the template engine's reading of a template text *)
  em_parse : string -> list instr;
  (** [json.load] of the text of a generator-arguments file *)
  json_manifest : string -> option Manifest;
  (** [json.load] of the text of a side file *)
  json_value : string -> option value;
  (** the IDL grammar: the tree of an IDL text, or the parser's error *)
  idl_grammar : string -> exn + value;
  (** [pattern % arg] for a pattern with a conversion other than [%s] and
      [%%] (a width, a precision, [%r], [%c], an unknown character, ...) *)
  str_format : string -> string -> exn + string
}.

(** A regular file: its text and its modification time. *)
Record File := mkFile { file_text : string; file_mtime : Z }.

(** Calls that leave the module, in the order they are made. *)
Inductive event :=
| Opened (path : string)                  (* a file opened for reading *)
| Parsed (path : string)                  (* an IDL file handed to the parser *)
| Hook (name : string) (arg : string).    (* interpreter.invoke(name, ...) *)

Record State := mkState {
  files : gmap string File;               (* regular files by path *)
  dirs : gset string;                     (* directories by path *)
  clock : Z;                              (* the time the next write is stamped with *)
  template_prefix_path : list Path;       (* module global *)
  interpreter : option string;            (* module global: the engine's sink, once created *)
  heap : gmap nat (gmap string value);    (* dict objects by reference *)
  stderr : list string;                   (* lines printed to sys.stderr *)
  trace : list event
}.

Definition set_files (f : gmap string File -> gmap string File) (st : State) : State :=
  mkState (f (files st)) (dirs st) (clock st) (template_prefix_path st)
          (interpreter st) (heap st) (stderr st) (trace st).
Definition set_dirs (f : gset string -> gset string) (st : State) : State :=
  mkState (files st) (f (dirs st)) (clock st) (template_prefix_path st)
          (interpreter st) (heap st) (stderr st) (trace st).
Definition set_clock (f : Z -> Z) (st : State) : State :=
  mkState (files st) (dirs st) (f (clock st)) (template_prefix_path st)
          (interpreter st) (heap st) (stderr st) (trace st).
Definition set_template_prefix_path (f : list Path -> list Path) (st : State) : State :=
  mkState (files st) (dirs st) (clock st) (f (template_prefix_path st))
          (interpreter st) (heap st) (stderr st) (trace st).
Definition set_interpreter (f : option string -> option string) (st : State) : State :=
  mkState (files st) (dirs st) (clock st) (template_prefix_path st)
          (f (interpreter st)) (heap st) (stderr st) (trace st).
Definition set_heap (f : gmap nat (gmap string value) -> gmap nat (gmap string value))
    (st : State) : State :=
  mkState (files st) (dirs st) (clock st) (template_prefix_path st)
          (interpreter st) (f (heap st)) (stderr st) (trace st).
Definition set_stderr (f : list string -> list string) (st : State) : State :=
  mkState (files st) (dirs st) (clock st) (template_prefix_path st)
          (interpreter st) (heap st) (f (stderr st)) (trace st).
Definition set_trace (f : list event -> list event) (st : State) : State :=
  mkState (files st) (dirs st) (clock st) (template_prefix_path st)
          (interpreter st) (heap st) (stderr st) (f (trace st)).

(* ===================================================================== *)
(** ** The monad of state and exceptions                                  *)
(* ===================================================================== *)

Definition M (A : Type) : Type := State -> State * outcome A.

#[global] Instance M_ret : MRet M := fun A a st => (st, Return a).

#[global] Instance M_bind : MBind M := fun A B f m st =>
  match m st with
  | (st', Return a) => f a st'
  | (st', Raise e) => (st', Raise e)
  end.

Definition raise {A} (e : exn) : M A := fun st => (st, Raise e).
Definition gets {A} (f : State -> A) : M A := fun st => (st, Return (f st)).
Definition modify (f : State -> State) : M unit := fun st => (f st, Return tt).

(** [try: body / except Exception as e: handler e]. *)
Definition try_except {A} (body : M A) (handler : exn -> M A) : M A :=
  fun st =>
    match body st with
    | (st', Raise e) => handler e st'
    | r => r
    end.

(** [try: body / finally: cleanup]. *)
Definition try_finally {A} (body : M A) (cleanup : M unit) : M A :=
  fun st =>
    let '(st', r) := body st in
    match cleanup st' with
    | (st'', Return _) => (st'', r)
    | (st'', Raise e) => (st'', Raise e)
    end.

(** [assert cond, msg]. *)
Definition assert (cond : bool) (msg : string) : M unit :=
  if cond then mret tt else raise (mkExn AssertionError msg).

(** [print(line, file=sys.stderr)]. *)
Definition print_stderr (line : string) : M unit :=
  modify (set_stderr (fun l => l ++ [line])).

Definition log_event (e : event) : M unit :=
  modify (set_trace (fun l => l ++ [e])).

(* ===================================================================== *)
(** ** The file system as the module uses it                              *)
(* ===================================================================== *)

(** The paths handed to these functions name regular files; a directory
    standing at such a path is outside the model.  Library exceptions carry
    the path the call was given as their text. *)

(** [os.path.exists(p)], also [Path.exists]. *)
Definition path_exists (st : State) (p : string) : bool :=
  bool_decide (is_Some (files st !! p)).

Definition os_path_exists (p : string) : M bool :=
  gets (fun st => path_exists st p).

(** The current directory and the root always exist. *)
Definition dir_exists (st : State) (d : string) : bool :=
  String.eqb d "." || String.eqb d "/" || bool_decide (d ∈ dirs st).

(** The proper ancestors of a path, nearest first. *)
Fixpoint ancestors (fuel : nat) (d : string) : list string :=
  match fuel with
  | O => []
  | S n =>
      let p := os_path_dirname d in
      if String.eqb p EmptyString || String.eqb p d then []
      else p :: ancestors n p
  end.

(** A regular file stands where a directory above [p] should be: the
    system refuses any call on [p] with [ENOTDIR]. *)
Definition under_file (st : State) (p : string) : bool :=
  existsb (path_exists st) (ancestors (String.length p) p).

(** The error of a call on a path at which there is no file. *)
Definition missing (st : State) (p : string) : exn :=
  mkExn (if under_file st p then NotADirectoryError else FileNotFoundError) p.

(** Reading in text mode translates line ends: [CR LF] and a lone [CR]
    are read as [LF] (the universal newlines of [open(p, 'r')]). *)
Fixpoint universal_newlines (s : string) : string :=
  match s with
  | EmptyString => EmptyString
  | String c tl =>
      if Ascii.eqb c "013" then
        match tl with
        | String c' tl' =>
            if Ascii.eqb c' "010" then String "010" (universal_newlines tl')
            else String "010" (universal_newlines tl)
        | EmptyString => String "010" EmptyString
        end
      else String c (universal_newlines tl)
  end.

(** The text of a file as a read in text mode returns it. *)
Definition read_text (f : File) : string := universal_newlines (file_text f).

(** [os.path.getmtime(p)]. *)
Definition os_path_getmtime (p : string) : M Z :=
  fun st =>
    match files st !! p with
    | Some f => (st, Return (file_mtime f))
    | None => (st, Raise (missing st p))
    end.

(** [with open(p, 'r') as h: h.read()]. *)
Definition open_read (p : string) : M string :=
  fun st =>
    match files st !! p with
    | Some f => (set_trace (fun l => l ++ [Opened p]) st, Return (read_text f))
    | None => (st, Raise (missing st p))
    end.

(** [with open(p, 'w') as h: h.write(content)]: the file is created or
    replaced, holds [content] as it is (on POSIX, writing in text mode
    translates nothing) and is stamped with the current time.  The call
    is refused below a regular file. *)
Definition open_write (p : string) (content : string) : M unit :=
  fun st =>
    if under_file st p then (st, Raise (mkExn NotADirectoryError p))
    else (set_clock (fun t => t + 1)
            (set_files (fun fs => <[p := mkFile content (clock st)]> fs) st),
          Return tt).

(** [os.remove(p)]. *)
Definition os_remove (p : string) : M unit :=
  fun st =>
    match files st !! p with
    | Some _ => (set_files (fun fs => delete p fs) st, Return tt)
    | None => (st, Raise (missing st p))
    end.

(** [os.makedirs(d)]: [FileNotFoundError] for the empty path,
    [NotADirectoryError] below a regular file, [FileExistsError] when [d]
    is there already (as a directory or as a file), otherwise [d] and its
    missing ancestors are created. *)
Definition os_makedirs (d : string) : M unit :=
  fun st =>
    if String.eqb d EmptyString then (st, Raise (mkExn FileNotFoundError d))
    else if under_file st d then (st, Raise (mkExn NotADirectoryError d))
    else if dir_exists st d || path_exists st d
    then (st, Raise (mkExn FileExistsError d))
    else (set_dirs (fun ds => {[d]} ∪ list_to_set (ancestors (String.length d) d) ∪ ds) st,
          Return tt).

(* ===================================================================== *)
(** ** Dictionaries by reference                                          *)
(* ===================================================================== *)

(** A new dict object holding [d]; its reference is fresh. *)
Definition dict_new (d : gmap string value) : M nat :=
  fun st =>
    let l := fresh (dom (heap st)) in
    (set_heap (fun h => <[l := d]> h) st, Return l).

(** [dict(data)]: a new dict with the bindings of [data]. *)
Definition dict_copy (data : nat) : M nat :=
  fun st =>
    match heap st !! data with
    | Some d => dict_new d st
    | None => (st, Raise (mkExn TypeError "not a mapping"))
    end.

(** [data[key] = v], in place. *)
Definition dict_set (data : nat) (key : string) (v : value) : M unit :=
  modify (set_heap (fun h => alter (fun d => <[key := v]> d) data h)).

(** [data.get(key)]. *)
Definition dict_get (data : nat) (key : string) : M (option value) :=
  gets (fun st => d ← heap st !! data; d !! key).

(* ===================================================================== *)
(** ** Staleness: [get_newest_modification_time]                          *)
(* ===================================================================== *)

(** The loop of lines 64-67, with [newest_timestamp] as accumulator. *)
Fixpoint newest_loop (target_dependencies : list string)
    (newest_timestamp : option Z) : M (option Z) :=
  match target_dependencies with
  | [] => mret newest_timestamp
  | dep :: rest =>
      ts ← os_path_getmtime dep;
      newest_loop rest
        (match newest_timestamp with
         | None => Some ts
         | Some newest => if ts >? newest then Some ts else Some newest
         end)
  end.

Definition get_newest_modification_time (target_dependencies : list string)
    : M (option Z) :=
  newest_loop target_dependencies None.

(* ===================================================================== *)
(** ** Template lookup: [get_template_path]                               *)
(* ===================================================================== *)

(** The [for] loop of lines 150-153 over the list it is given: the first
    base path, in list order, under which the name exists. *)
Fixpoint find_template (st : State) (prefix_path : list Path)
    (template_name : string) : option Path :=
  match prefix_path with
  | [] => None
  | basepath :: rest =>
      let template_path := Path_div basepath template_name in
      if path_exists st (Path_str template_path) then Some template_path
      else find_template st rest template_name
  end.

Definition template_not_found (template_name : string) : exn :=
  mkExn RuntimeError ("Failed to find template '" +:+ template_name +:+ "'").

Definition get_template_path (template_name : string) : M Path :=
  fun st =>
    match find_template st (template_prefix_path st) template_name with
    | Some template_path => (st, Return template_path)
    | None => (st, Raise (template_not_found template_name))
    end.

(** [template_prefix_path.append(p)] and [template_prefix_path.pop()]. *)
Definition prefix_path_append (p : Path) : M unit :=
  modify (set_template_prefix_path (fun l => l ++ [p])).

Definition prefix_path_pop : M unit :=
  fun st =>
    match template_prefix_path st with
    | [] => (st, Raise (mkExn IndexError "pop from empty list"))
    | _ => (set_template_prefix_path (fun l => removelast l) st, Return tt)
    end.

(* ===================================================================== *)
(** ** The template engine and the expander                               *)
(* ===================================================================== *)

(** Writing to the sink of the interpreter the global refers to.  Any use
    of the global while it is [None] is an [AttributeError]. *)
Definition no_interpreter : exn :=
  mkExn AttributeError "'NoneType' object has no attribute".

Definition sink_write (text : string) : M unit :=
  fun st =>
    match interpreter st with
    | Some buf => (set_interpreter (fun _ => Some (buf +:+ text)) st, Return tt)
    | None => (st, Raise no_interpreter)
    end.

(** [interpreter.invoke(name, ...)]: the hook call is recorded. *)
Definition interpreter_invoke (name arg : string) : M unit :=
  fun st =>
    match interpreter st with
    | Some _ => log_event (Hook name arg) st
    | None => (st, Raise no_interpreter)
    end.

(** [data['TEMPLATE'] = _expand_template]. *)
Definition _add_helper_functions (data : nat) : M unit :=
  dict_set data "TEMPLATE" VTemplateFn.

Section Engine.

(** What calling the object bound to [TEMPLATE] does. *)
Variable call_template : string -> list (string * value) -> M unit.

Definition exec_instr (locals : nat) (i : instr) : M unit :=
  match i with
  | Emit text => sink_write text
  | Subst name =>
      v ← dict_get locals name;
      match v with
      | Some v => sink_write (str_of_value v)
      | None => raise (mkExn NameError ("name '" +:+ name +:+ "' is not defined"))
      end
  | Assign name v => dict_set locals name v
  | Include template_name kwargs =>
      f ← dict_get locals "TEMPLATE";
      match f with
      | Some VTemplateFn => call_template template_name kwargs
      | Some _ => raise (mkExn TypeError "object is not callable")
      | None => raise (mkExn NameError "name 'TEMPLATE' is not defined")
      end
  | Fail e => raise e
  end.

Fixpoint exec (locals : nat) (items : list instr) : M unit :=
  match items with
  | [] => mret tt
  | i :: rest => exec_instr locals i ;; exec locals rest
  end.

End Engine.

Section Expander.

Context `{Collaborators}.

(** [interpreter.string(content, locals=locals)]. *)
Definition interpreter_string
    (call_template : string -> list (string * value) -> M unit)
    (content : string) (locals : nat) : M unit :=
  fun st =>
    match interpreter st with
    | Some _ => exec call_template locals (em_parse content) st
    | None => (st, Raise no_interpreter)
    end.

(** [_expand_template(template_name, **kwargs)], lines 249-269.  [depth]
    is the number of nested calls the interpreter's call stack still
    takes; beyond it Python raises [RecursionError]. *)
Fixpoint _expand_template (depth : nat) (template_name : string)
    (kwargs : list (string * value)) : M unit :=
  match depth with
  | O => raise (mkExn RecursionError "maximum recursion depth exceeded")
  | S depth' =>
      kwargs ← dict_new (list_to_map kwargs);
      template_path ← get_template_path template_name;
      _add_helper_functions kwargs ;;
      interp ← gets interpreter;
      (if interp is None
       then raise (mkExn RuntimeError "_expand_template called before expand_template")
       else mret tt) ;;
      content ← (content ← open_read (Path_str template_path);
                 interpreter_invoke "beforeInclude" (Path_str template_path) ;;
                 mret content);
      try_except
        (interpreter_string (_expand_template depth') content kwargs)
        (fun e =>
           print_stderr (class_name (exn_cls e) +:+ " in template '"
                         +:+ Path_str template_path +:+ "': " +:+ exn_str e) ;;
           raise e) ;;
      interpreter_invoke "afterInclude" ""
  end.

(** The body of the [try] of [expand_template], lines 202-210. *)
Definition expand_template_try (depth : nat) (template_name : string)
    (template_path : Path) (data : nat) : M unit :=
  template_content ← (template_content ← open_read (Path_str template_path);
                      interpreter_invoke "beforeFile" template_name ;;
                      mret template_content);
  interpreter_string (_expand_template depth) template_content data ;;
  interpreter_invoke "afterFile" "".

(** The diagnostic of line 214. *)
Definition expand_diagnostic (e : exn) (template_name output_file : string)
    : string :=
  class_name (exn_cls e) +:+ " when expanding '" +:+ template_name
  +:+ "' into '" +:+ output_file +:+ "': " +:+ exn_str e.

(** The [except] clause of [expand_template], lines 211-216. *)
Definition expand_template_except (template_name output_file : string)
    (e : exn) : M unit :=
  file_exists ← os_path_exists output_file;
  (if file_exists : bool then os_remove output_file else mret tt) ;;
  print_stderr (expand_diagnostic e template_name output_file) ;;
  raise e.

(** The write decision of [expand_template], lines 226-242.  [unchanged]
    is true exactly on the path that returns at line 233. *)
Definition expand_template_write (output_file : string)
    (minimum_timestamp : option Z) (content : string) : M unit :=
  file_exists ← os_path_exists output_file;
  unchanged ←
    (if file_exists : bool then
       timestamp ← os_path_getmtime output_file;
       if match minimum_timestamp with
          | None => true
          | Some minimum => timestamp >? minimum
          end
       then old ← open_read output_file; mret (String.eqb old content)
       else mret false
     else
       try_except (os_makedirs (os_path_dirname output_file))
         (fun e => if decide (exn_cls e = FileExistsError) then mret tt else raise e) ;;
       mret false);
  if unchanged : bool then mret tt else open_write output_file content.

(** Lines 166-170: without a base path the first argument is the path
    of the template (the legacy calling convention) and is split into
    directory and name. *)
Definition resolve_template (template_name : string)
    (template_basepath : option Path) : Path * string :=
  match template_basepath with
  | Some basepath => (basepath, template_name)
  | None =>
      let template_path := Path_of template_name in
      (Path_parent template_path, Path_name template_path)
  end.

(** The entry of [expand_template], lines 171-199: the search path is
    extended, the template looked up, a new interpreter with an empty sink
    installed, and the context copied and given its helper.  It hands on
    the template name, the template path and the copy. *)
Definition expand_template_enter (template_name : string) (data : nat)
    (template_basepath : option Path) : M (string * Path * nat) :=
  let '(template_basepath, template_name) :=
    resolve_template template_name template_basepath in
  prefix_path_append template_basepath ;;
  template_path ← get_template_path template_name;
  modify (set_interpreter (fun _ => Some EmptyString)) ;;
  data ← dict_copy data;
  _add_helper_functions data ;;
  mret (template_name, template_path, data).

(** The post-processing of lines 223-224. *)
Definition post_process (post_process_callback : option (string -> string))
    (content : string) : string :=
  match post_process_callback with
  | Some callback => callback content
  | None => content
  end.

(** [expand_template], lines 160-242.  ([interpreter.shutdown()] releases
    the engine after its sink was read; the global keeps referring to
    it.) *)
Definition expand_template (depth : nat) (template_name : string) (data : nat)
    (output_file : string) (minimum_timestamp : option Z)
    (template_basepath : option Path)
    (post_process_callback : option (string -> string)) : M unit :=
  '(template_name, template_path, data) ←
    expand_template_enter template_name data template_basepath;
  try_finally
    (try_except
       (expand_template_try depth template_name template_path data)
       (expand_template_except template_name output_file))
    prefix_path_pop ;;
  content ← gets (fun st => default EmptyString (interpreter st));
  expand_template_write output_file minimum_timestamp
    (post_process post_process_callback content).

(** The call gets through rendering: its entry succeeds, the body of the
    [try] returns, and [content] is the text of the sink, post-processed:
    the text the write decision is made for. *)
Definition renders (depth : nat) (template_name : string) (data : nat)
    (template_basepath : option Path)
    (post_process_callback : option (string -> string))
    (st : State) (content : string) : Prop :=
  exists st1 name path copy st2,
    expand_template_enter template_name data template_basepath st
      = (st1, Return (name, path, copy))
    /\ expand_template_try depth name path copy st1 = (st2, Return tt)
    /\ content = post_process post_process_callback
                   (default EmptyString (interpreter st2)).

(** Rendering raises [e]: the entry of the call succeeds and the body of
    the [try] ends in the exception [e]. *)
Definition rendering_raises (depth : nat) (template_name : string) (data : nat)
    (template_basepath : option Path) (st : State) (e : exn) : Prop :=
  exists st1 name path copy st2,
    expand_template_enter template_name data template_basepath st
      = (st1, Return (name, path, copy))
    /\ expand_template_try depth name path copy st1 = (st2, Raise e).

(** The condition under which the write is skipped: the output file is
    there, it is newer than the minimum (when one is given), and its text,
    as a read in text mode returns it, is the new content. *)
Definition unchanged_output (st : State) (output_file : string)
    (minimum_timestamp : option Z) (content : string) : Prop :=
  exists f, files st !! output_file = Some f
    /\ match minimum_timestamp with
       | None => True
       | Some minimum => file_mtime f > minimum
       end
    /\ read_text f = content.

End Expander.

(* ===================================================================== *)
(** ** The orchestrator: [generate_files]                                 *)
(* ===================================================================== *)

(** [args[key]]. *)
Definition getitem {A} (key : string) (o : option A) : M A :=
  match o with
  | Some a => mret a
  | None => raise (mkExn KeyError ("'" +:+ key +:+ "'"))
  end.

(** [pattern % arg] for a string argument, on a pattern whose conversions
    are all [%s] or [%%]; [arg] is [Some] until the one argument is used
    up.  [None] on any other pattern. *)
Fixpoint format_plain (pattern : string) (arg : option string)
    : option (exn + string) :=
  match pattern with
  | EmptyString =>
      Some (match arg with
            | Some _ =>
                inl (mkExn TypeError "not all arguments converted during string formatting")
            | None => inr EmptyString
            end)
  | String "%" (String "s" tl) =>
      r ← format_plain tl None;
      Some (match arg, r with
            | None, _ => inl (mkExn TypeError "not enough arguments for format string")
            | Some a, inr r => inr (a +:+ r)
            | Some _, inl e => inl e
            end)
  | String "%" (String "%" tl) =>
      r ← format_plain tl arg;
      Some (match r with
            | inr r => inr (String "%" r)
            | inl e => inl e
            end)
  | String "%" _ => None
  | String c tl =>
      r ← format_plain tl arg;
      Some (match r with
            | inr r => inr (String c r)
            | inl e => inl e
            end)
  end.

(** [pattern % arg]: computed on the plain patterns, the library's answer
    on all others. *)
Definition percent_format `{Collaborators} (pattern arg : string) : exn + string :=
  default (str_format pattern arg) (format_plain pattern (Some arg)).

Definition lift_sum {A} (r : exn + A) : M A :=
  match r with
  | inl e => raise e
  | inr a => mret a
  end.

(** Modelled from the spec: [IdlLocator] of [rosidl_parser.definition],
    which is not in this module.  A locator is a base directory and a
    relative path, and [get_absolute_path()] joins them. *)
Record IdlLocator := mkIdlLocator { basepath : string; relative_path : string }.

Definition get_absolute_path (locator : IdlLocator) : Path :=
  Path_div (Path_of (basepath locator)) (relative_path locator).

Section Orchestrator.

Context `{Collaborators}.

(** [read_generator_arguments], lines 55-57. *)
Definition read_generator_arguments (input_file : string) : M Manifest :=
  text ← open_read input_file;
  match json_manifest text with
  | Some args => mret args
  | None => raise (mkExn JSONDecodeError input_file)
  end.

(** Modelled from the spec: [parse_idl_file] of [rosidl_parser.parser],
    which is not in this module.  It takes a locator, reads the file the
    locator resolves to and returns its parsed content, or fails. *)
Definition parse_idl_file (locator : IdlLocator) : M value :=
  let path := Path_str (get_absolute_path locator) in
  log_event (Parsed path) ;;
  text ← open_read path;
  lift_sum (idl_grammar text).

(** Lines 79-81: every key of the mapping is asserted to exist. *)
Fixpoint check_templates (template_basepath : Path) (keys : list string) : M unit :=
  match keys with
  | [] => mret tt
  | template_filename :: rest =>
      found ← os_path_exists (Path_str (Path_div template_basepath template_filename));
      assert found ("Could not find template: " +:+ template_filename) ;;
      check_templates template_basepath rest
  end.

(** Lines 86-90. *)
Fixpoint read_type_description_tuples (tuples : list string)
    (type_description_files : gmap string string) : M (gmap string string) :=
  match tuples with
  | [] => mret type_description_files
  | description_tuple :: rest =>
      match split_first ":" description_tuple with
      | Some (idl_path, side_file) =>
          read_type_description_tuples rest (<[idl_path := side_file]> type_description_files)
      | None => raise (mkExn AssertionError "")
      end
  end.

(** Lines 91-96. *)
Definition string_tail (s : string) : string :=
  match s with
  | String _ tl => tl
  | EmptyString => EmptyString
  end.

Definition read_ros_interface_files (paths : list string)
    : gmap (string * string) Path :=
  foldl (fun acc ros_interface_file =>
           let p := Path_of ros_interface_file in
           <[(string_tail (Path_suffix p), Path_stem p) := p]> acc)
        ∅ paths.

Section IdlLoop.

(** What the loop over [idl_tuples] reads but does not change. *)
Variable depth : nat.
Variable args : Manifest.
Variable mapping : list (string * string).
Variable additional_context : option (list (string * bool)).
Variable keep_case : bool.
Variable post_process_callback : option (string -> string).
Variable template_basepath : Path.
Variable latest_target_timestamp : option Z.
Variable type_description_files : gmap string string.
Variable ros_interface_files : gmap (string * string) Path.

(** Lines 117-135: one template of the mapping, for one IDL file. *)
Definition generate_one (idl_rel_path : Path) (idl_stem : string)
    (content type_description_info : value) (type_source_file : Path)
    (generated_files : list string) (item : string * string)
    : M (list string) :=
  let '(template_file, generated_filename) := item in
  out_dir ← getitem "output_dir" (output_dir args);
  name ← lift_sum (percent_format generated_filename idl_stem);
  let generated_file :=
    os_path_join (os_path_join out_dir (Path_str (Path_parent idl_rel_path))) name in
  let generated_files := generated_files ++ [generated_file] in
  pkg ← getitem "package_name" (package_name args);
  data ← dict_new
    (<["package_name" := VStr pkg]>
      (<["interface_path" := VPath idl_rel_path]>
        (<["content" := content]>
          (<["type_description_info" := type_description_info]>
            (<["type_source_file" := VPath type_source_file]> ∅)))));
  match additional_context with
  | Some extra =>
      modify (set_heap (alter (fun d =>
        foldl (fun d kv => <[kv.1 := VBool kv.2]> d) d extra) data))
  | None => mret tt
  end ;;
  expand_template depth (os_path_basename template_file) data generated_file
    latest_target_timestamp (Some template_basepath) post_process_callback ;;
  mret generated_files.

Fixpoint generate_each (idl_rel_path : Path) (idl_stem : string)
    (content type_description_info : value) (type_source_file : Path)
    (items : list (string * string)) (generated_files : list string)
    : M (list string) :=
  match items with
  | [] => mret generated_files
  | item :: rest =>
      generated_files ← generate_one idl_rel_path idl_stem content
                          type_description_info type_source_file generated_files item;
      generate_each idl_rel_path idl_stem content type_description_info
        type_source_file rest generated_files
  end.

(** Lines 99-114: what is done with an entry before the [try]. *)
Record Prepared := mkPrepared {
  locator : IdlLocator;
  idl_rel_path : Path;
  type_description_info : value;
  type_source_file : Path;
  idl_stem : string
}.

Definition prepare_idl_tuple (idl_tuple : string) : M Prepared :=
  idl_parts ← match split_last ":" idl_tuple with
              | Some parts => mret parts
              | None => raise (mkExn AssertionError "")
              end;
  let locator := mkIdlLocator idl_parts.1 idl_parts.2 in
  let idl_rel_path := Path_of idl_parts.2 in
  type_description_info ←
    (if decide (type_description_files = ∅) then mret VNone
     else
       type_hash_file ← match type_description_files !! idl_parts.2 with
                        | Some f => mret f
                        | None => raise (mkExn KeyError ("'" +:+ idl_parts.2 +:+ "'"))
                        end;
       text ← open_read type_hash_file;
       match json_value text with
       | Some info => mret info
       | None => raise (mkExn JSONDecodeError type_hash_file)
       end);
  let idl_stem := Path_stem idl_rel_path in
  parent_name ← match rev (Path_parts idl_rel_path) with
                | _ :: parent_name :: _ => mret parent_name
                | _ => raise (mkExn IndexError "tuple index out of range")
                end;
  let type_source_file :=
    default (get_absolute_path locator)
            (ros_interface_files !! (parent_name, idl_stem)) in
  let idl_stem :=
    if keep_case then idl_stem
    else Naming.convert_camel_case_to_lower_case_underscore idl_stem in
  mret (mkPrepared locator idl_rel_path type_description_info type_source_file idl_stem).

(** The diagnostic of lines 137-139. *)
Definition idl_diagnostic (locator : IdlLocator) : string :=
  "Error processing idl file: " +:+ Path_str (get_absolute_path locator).

(** Lines 116-135: the body of the [try]. *)
Definition generate_idl_try (p : Prepared) (generated_files : list string)
    : M (list string) :=
  content ← parse_idl_file (locator p);
  generate_each (idl_rel_path p) (idl_stem p) content
    (type_description_info p) (type_source_file p) mapping generated_files.

(** Lines 115-140: the [try] and its [except]. *)
Definition generate_idl (p : Prepared) (generated_files : list string)
    : M (list string) :=
  try_except
    (generate_idl_try p generated_files)
    (fun e => print_stderr (idl_diagnostic (locator p)) ;; raise e).

(** One turn of the loop of line 98. *)
Definition process_idl_tuple (idl_tuple : string) (generated_files : list string)
    : M (list string) :=
  p ← prepare_idl_tuple idl_tuple;
  generate_idl p generated_files.

Fixpoint process_idl_tuples (tuples : list string) (generated_files : list string)
    : M (list string) :=
  match tuples with
  | [] => mret generated_files
  | idl_tuple :: rest =>
      generated_files ← process_idl_tuple idl_tuple generated_files;
      process_idl_tuples rest generated_files
  end.

End IdlLoop.

(** [generate_files], lines 71-142. *)
Definition generate_files (depth : nat) (generator_arguments_file : string)
    (mapping : list (string * string))
    (additional_context : option (list (string * bool)))
    (keep_case : bool) (post_process_callback : option (string -> string))
    : M (list string) :=
  args ← read_generator_arguments generator_arguments_file;
  template_dir ← getitem "template_dir" (template_dir args);
  let template_basepath := Path_of template_dir in
  check_templates template_basepath (mapping.*1) ;;
  deps ← getitem "target_dependencies" (target_dependencies args);
  latest_target_timestamp ← get_newest_modification_time deps;
  type_description_files ←
    read_type_description_tuples (default [] (type_description_tuples args)) ∅;
  let ros_interface_files :=
    read_ros_interface_files (default [] (ros_interface_files args)) in
  process_idl_tuples depth args mapping additional_context keep_case
    post_process_callback template_basepath latest_target_timestamp
    type_description_files ros_interface_files
    (default [] (idl_tuples args)) [].

End Orchestrator.

(* ===================================================================== *)
(** ** The expander as the specification words it                         *)
(* ===================================================================== *)

Section SpecWording.

Context `{Collaborators}.

(** Following the specification's words for the nested-inclusion
    callable: it resolves the template, pushes the directory of the
    nested template onto the search path, renders it into the same sink
    and pops the search path again.  Kept apart from the code's
    [_expand_template], with which it is compared. *)
Fixpoint _expand_template_spec (depth : nat) (template_name : string)
    (kwargs : list (string * value)) : M unit :=
  match depth with
  | O => raise (mkExn RecursionError "maximum recursion depth exceeded")
  | S depth' =>
      kwargs ← dict_new (list_to_map kwargs);
      template_path ← get_template_path template_name;
      _add_helper_functions kwargs ;;
      content ← open_read (Path_str template_path);
      prefix_path_append (Path_parent template_path) ;;
      try_finally
        (interpreter_string (_expand_template_spec depth') content kwargs)
        prefix_path_pop
  end.

(** Following the specification's words for the lookup: the directories
    are probed most recently pushed first. *)
Definition get_template_path_spec (template_name : string) : M Path :=
  fun st =>
    match find_template st (rev (template_prefix_path st)) template_name with
    | Some template_path => (st, Return template_path)
    | None => (st, Raise (template_not_found template_name))
    end.

End SpecWording.

(* ===================================================================== *)
(** ** A small world to run the model in                                  *)
(* ===================================================================== *)

Module Demo.

Fixpoint assoc {A} (key : string) (l : list (string * A)) : option A :=
  match l with
  | [] => None
  | (k, v) :: rest => if String.eqb k key then Some v else assoc key rest
  end.

Definition division_by_zero : exn :=
  mkExn (OtherError "ZeroDivisionError") "division by zero".

(** Template texts and what the engine does with each. *)
Definition programs : list (string * list instr) :=
  [ ("plain",  [Emit "struct "; Subst "package_name"; Emit ";"]);
    ("top",    [Emit "<"; Include "sub/n.em" [("x", VStr "1")]; Emit ">"]);
    ("nested", [Subst "x"; Include "leaf.em" []]);
    ("leaf",   [Emit "leaf"]);
    ("broken", [Emit "partial"; Fail division_by_zero]);
    ("outer",  [Emit "["; Include "broken.em" []; Emit "]"]);
    ("setter", [Assign "package_name" (VStr "changed"); Subst "package_name"]) ].

Definition manifest : Manifest :=
  mkManifest (Some "/t") (Some "/out") (Some "pkg") (Some ["/dep/a"; "/dep/b"])
             None None (Some ["/src/pkg:msg/Point.idl"]).

(** A manifest that names side files, but none for [msg/Point.idl]. *)
Definition manifest_side : Manifest :=
  mkManifest (Some "/t") (Some "/out") (Some "pkg") (Some [])
             (Some ["msg/Other.idl:/td/other.json"]) None
             (Some ["/src/pkg:msg/Point.idl"; "/src/pkg:msg/Pose.idl"]).

(** A manifest whose first IDL file the parser rejects. *)
Definition manifest_bad : Manifest :=
  mkManifest (Some "/t") (Some "/out") (Some "pkg") (Some [])
             None None
             (Some ["/src/pkg:msg/Bad.idl"; "/src/pkg:msg/Point.idl"]).

Definition manifests : list (string * Manifest) :=
  [ ("args", manifest); ("args-side", manifest_side); ("args-bad", manifest_bad) ].

#[export] Instance world : Collaborators := {
  em_parse text := default [Emit text] (assoc text programs);
  json_manifest text := assoc text manifests;
  json_value text := Some (VJson text);
  idl_grammar text :=
    if String.eqb text "bad"
    then inl (mkExn (OtherError "UnexpectedInput") "bad")
    else inr (VTree 1);
  str_format pattern _ := inl (mkExn ValueError ("unsupported format: " +:+ pattern))
}.

Definition disk : gmap string File :=
  list_to_map
    [ ("/t/msg__struct.h.em", mkFile "plain" 1);
      ("/a/t.em", mkFile "from a" 1);
      ("/b/t.em", mkFile "from b" 1);
      ("/a/top.em", mkFile "top" 1);
      ("/a/sub/n.em", mkFile "nested" 1);
      ("/a/sub/leaf.em", mkFile "leaf" 1);
      ("/t/broken.em", mkFile "broken" 1);
      ("/t/outer.em", mkFile "outer" 1);
      ("/t/setter.em", mkFile "setter" 1);
      ("/dep/a", mkFile "" 3);
      ("/dep/b", mkFile "" 7);
      ("/out/old.h", mkFile "stale" 9);
      ("/out/same.h", mkFile "struct pkg;" 9);
      ("/args.json", mkFile "args" 2);
      ("/args-side.json", mkFile "args-side" 2);
      ("/args-bad.json", mkFile "args-bad" 2);
      ("/src/pkg/msg/Point.idl", mkFile "struct Point {};" 2);
      ("/src/pkg/msg/Pose.idl", mkFile "struct Pose {};" 2);
      ("/src/pkg/msg/Bad.idl", mkFile "bad" 2) ].

(** The caller's context is the dict at reference 0. *)
Definition context : gmap string value := {[ "package_name" := VStr "pkg" ]}.

Definition start : State :=
  mkState disk {[ "/out" ]} 10 [] None {[ 0%nat := context ]} [] [].

(** The search path after [/a] and then [/b] were pushed. *)
Definition two_pushed : State :=
  set_template_prefix_path (fun _ => [Path_of "/a"; Path_of "/b"]) start.

(** The state in which the nested template of the examples is included:
    inside an expansion rooted at [/a], with an empty sink. *)
Definition inside_a : State :=
  set_interpreter (fun _ => Some EmptyString)
    (set_template_prefix_path (fun _ => [Path_of "/a"]) Demo.start).

End Demo.

(** A second small world: one template, which includes itself. *)
Module Cyclic.

Definition cycle_world : Collaborators := {|
  em_parse text :=
    if String.eqb text "loop" then [Emit "again "; Include "loop.em" []]
    else [Emit text];
  json_manifest _ := None;
  json_value _ := None;
  idl_grammar _ := inr VNone;
  str_format _ arg := inr arg
|}.

Definition cycle_start : State :=
  mkState (list_to_map [ ("/t/loop.em", mkFile "loop" 1);
                         ("/out/loop.h", mkFile "stale" 9) ])
          {[ "/t"; "/out" ]} 10 [] None {[ 0%nat := ∅ ]} [] [].

End Cyclic.

(** A third small world: two IDL files and two templates of plain text. *)
Module Pair.

Definition pair_manifest : Manifest :=
  mkManifest (Some "/t") (Some "/out") (Some "pkg") (Some ["/dep/a"])
             None None
             (Some ["/src/pkg:msg/TwistStamped.idl"; "/src/pkg:msg/Point.idl"]).

Definition pair_world : Collaborators := {|
  em_parse text := [Emit text];
  json_manifest text := if String.eqb text "args" then Some pair_manifest else None;
  json_value _ := None;
  idl_grammar _ := inr (VTree 1);
  str_format _ arg := inr arg
|}.

Definition pair_start : State :=
  mkState (list_to_map [ ("/t/a.em", mkFile "A" 1);
                         ("/t/b.em", mkFile "B" 1);
                         ("/dep/a", mkFile "" 3);
                         ("/args.json", mkFile "args" 2);
                         ("/src/pkg/msg/TwistStamped.idl", mkFile "struct TwistStamped {};" 2);
                         ("/src/pkg/msg/Point.idl", mkFile "struct Point {};" 2) ])
          ∅ 10 [] None ∅ [] [].

End Pair.

(* ===================================================================== *)
(** ** Vocabulary of the proofs                                           *)
(* ===================================================================== *)

(** [m] keeps the property [P] of the state, however it ends. *)
Definition preserves {A} (P : State -> Prop) (m : M A) : Prop :=
  forall st, P st -> P (m st).1.

(** A property of the state that rendering cannot break: it survives
    diagnostics, recorded calls, text appended to the sink, the allocation
    of a new dict, and bindings made in a dict whose reference is [good];
    a newly allocated reference is [good]. *)
Record stable (P : State -> Prop) (good : nat -> Prop) : Prop := {
  stable_trace : forall e st, P st -> P (set_trace (fun l => l ++ [e]) st);
  stable_stderr : forall line st, P st ->
    P (set_stderr (fun l => l ++ [line]) st);
  stable_sink : forall text buf st, P st -> interpreter st = Some buf ->
    P (set_interpreter (fun _ => Some (buf +:+ text)) st);
  stable_alloc : forall d st, P st ->
    P (set_heap (fun h => <[fresh (dom (heap st)) := d]> h) st);
  stable_fresh : forall st, P st -> good (fresh (dom (heap st)));
  stable_set : forall l key v st, good l -> P st ->
    P (set_heap (fun h => alter (fun d => <[key := v]> d) l h) st)
}.

(** The stable properties used below. *)

(** The file system and the search path are as given. *)
Definition frame (F : gmap string File) (D : gset string) (C : Z)
    (T : list Path) (st : State) : Prop :=
  files st = F /\ dirs st = D /\ clock st = C /\ template_prefix_path st = T.

(** The dict at reference [l] holds [d]. *)
Definition keeps (l : nat) (d : gmap string value) (st : State) : Prop :=
  heap st !! l = Some d.

(** The sink holds [buf] and possibly more behind it. *)
Definition sink_extends (buf : string) (st : State) : Prop :=
  exists more, interpreter st = Some (buf +:+ more).

(** Diagnostics are only ever added behind [lines]. *)
Definition stderr_extends (lines : list string) (st : State) : Prop :=
  exists more, stderr st = lines ++ more.

(** The newest of an optional time and a list of times. *)
Definition newest_of (acc : option Z) (l : list Z) : option Z :=
  foldl (fun a t => match a with
                    | None => Some t
                    | Some n => Some (Z.max n t)
                    end) acc l.

(** The state in which the text of a nested template is rendered: the
    caller's state with the new dict for [kwargs], carrying the helper,
    and the two calls recorded. *)
Definition nested_start (st : State) (kwargs : list (string * value))
    (path : Path) : State :=
  set_trace (fun l => l ++ [Opened (Path_str path);
                            Hook "beforeInclude" (Path_str path)])
    (set_heap (fun h => <[fresh (dom (heap st)) :=
                           <["TEMPLATE" := VTemplateFn]> (list_to_map kwargs)]> h) st).

(** The intermediate states of a call in the small world are computed, not
    guessed. *)
Ltac by_running name path copy :=
  match goal with
  | |- renders ?depth ?template_name ?data ?base ?post ?st _ =>
      exists (expand_template_enter template_name data base st).1, name, path, copy,
        (expand_template_try depth name path copy
           (expand_template_enter template_name data base st).1).1;
      split; [vm_compute; reflexivity|]; split; vm_compute; reflexivity
  | |- rendering_raises ?depth ?template_name ?data ?base ?st _ =>
      exists (expand_template_enter template_name data base st).1, name, path, copy,
        (expand_template_try depth name path copy
           (expand_template_enter template_name data base st).1).1;
      split; vm_compute; reflexivity
  end.

(** Texts written to the sink one after the other. *)
Definition joined (texts : list string) : string :=
  foldr (fun text rest => text +:+ rest) EmptyString texts.

(** Lines 104-108 went through for the entry whose relative path is
    [key]: no side files are named and the information is [None], or the
    side file named for [key] was opened and read as JSON. *)
Definition side_file_read `{Collaborators}
    (type_description_files : gmap string string) (key : string)
    (st st1 : State) (info : value) : Prop :=
  (type_description_files = ∅ /\ st1 = st /\ info = VNone)
  \/ (type_description_files <> ∅
      /\ exists side f,
           type_description_files !! key = Some side
           /\ files st !! side = Some f
           /\ json_value (read_text f) = Some info
           /\ st1 = set_trace (fun l => l ++ [Opened side]) st).

(** What Python raises when the call stack is exhausted. *)
Definition recursion_error : exn :=
  mkExn RecursionError "maximum recursion depth exceeded".

(** The output path [generate_files] computes for one IDL tuple and one
    item of the mapping (lines 99-102, 110-114 and 118-120), when it can be
    computed. *)
Definition planned_output `{Collaborators} (args : Manifest) (keep_case : bool)
    (idl_tuple : string) (item : string * string) : option string :=
  match split_last ":" idl_tuple, output_dir args with
  | Some (_, relative), Some out_dir =>
      let idl_rel_path := Path_of relative in
      let idl_stem :=
        if keep_case then Path_stem idl_rel_path
        else Naming.convert_camel_case_to_lower_case_underscore (Path_stem idl_rel_path) in
      match percent_format item.2 idl_stem with
      | inr name =>
          Some (os_path_join (os_path_join out_dir (Path_str (Path_parent idl_rel_path)))
                  name)
      | inl _ => None
      end
  | _, _ => None
  end.

(** The same for every tuple, and for every item of the mapping within a
    tuple. *)
Definition planned_outputs `{Collaborators} (args : Manifest) (keep_case : bool)
    (mapping : list (string * string)) (tuples : list string) : list (option string) :=
  flat_map (fun idl_tuple => map (planned_output args keep_case idl_tuple) mapping) tuples.

(** From [st] to [st'] no file went away and the search path is the same. *)
Definition files_kept (st st' : State) : Prop :=
  (forall p, is_Some (files st !! p) -> is_Some (files st' !! p))
  /\ template_prefix_path st' = template_prefix_path st.

(** The set-up of [generate_files] is sound: the manifest has a
    [template_dir] under which every key of the mapping exists, it has
    [target_dependencies] which all exist, and every entry of its
    [type_description_tuples] has a colon. *)
Definition setup_sound (st : State) (args : Manifest)
    (mapping : list (string * string)) : Prop :=
  (exists dir, template_dir args = Some dir
     /\ forall key, key ∈ mapping.*1 ->
          path_exists st (Path_str (Path_div (Path_of dir) key)) = true)
  /\ (exists deps, target_dependencies args = Some deps
        /\ forall d, d ∈ deps -> is_Some (files st !! d))
  /\ (forall t, t ∈ default [] (type_description_tuples args) ->
        is_Some (split_first ":" t)).

(** [t] is [s] with underscores put in: nothing of [s] is dropped,
    changed or moved. *)
Inductive underscores_inserted : string -> string -> Prop :=
| inserted_end : underscores_inserted EmptyString EmptyString
| inserted_keep c s t :
    underscores_inserted s t -> underscores_inserted (String c s) (String c t)
| inserted_add s t :
    underscores_inserted s t -> underscores_inserted s (String "_" t).

(** A replacement which puts back what it matched, with underscores
    put in. *)
Definition only_inserts (match_at : string -> option (string * string)) : Prop :=
  forall s repl rest, match_at s = Some (repl, rest) ->
    exists matched, s = matched +:+ rest /\ underscores_inserted matched repl.

(* ===================================================================== *)
(** * Properties                                                          *)
(* ===================================================================== *)

(* ===================================================================== *)
(** ** Reasoning about computations in [M]                                *)
(* ===================================================================== *)

Lemma bind_unfold {A B} (m : M A) (f : A -> M B) st :
  (m ≫= f) st = match m st with
                | (st', Return a) => f a st'
                | (st', Raise e) => (st', Raise e)
                end.
Proof. reflexivity. Qed.

Lemma bind_return {A B} (m : M A) (f : A -> M B) st st' a :
  m st = (st', Return a) -> (m ≫= f) st = f a st'.
Proof. intros E. now rewrite bind_unfold, E. Qed.

Lemma bind_raise {A B} (m : M A) (f : A -> M B) st st' e :
  m st = (st', Raise e) -> (m ≫= f) st = (st', Raise e).
Proof. intros E. now rewrite bind_unfold, E. Qed.

Lemma preserves_ret {A} P (a : A) : preserves P (mret a).
Proof. intros st HP. exact HP. Qed.

Lemma preserves_raise {A} P e : preserves P (@raise A e).
Proof. intros st HP. exact HP. Qed.

Lemma preserves_gets {A} P (f : State -> A) : preserves P (gets f).
Proof. intros st HP. exact HP. Qed.

(** The continuation may rely on what [m] returns from a state with [P]. *)
Lemma preserves_bind_post {A B} P (Q : A -> Prop) (m : M A) (f : A -> M B) :
  preserves P m ->
  (forall st st' a, P st -> m st = (st', Return a) -> Q a) ->
  (forall a, Q a -> preserves P (f a)) ->
  preserves P (m ≫= f).
Proof.
  intros Hm HQ Hf st HP. rewrite bind_unfold.
  specialize (Hm st HP). destruct (m st) as [st' [a|e]] eqn:E; simpl in *.
  - apply (Hf a); [eapply HQ; eauto|exact Hm].
  - exact Hm.
Qed.

Lemma preserves_bind {A B} P (m : M A) (f : A -> M B) :
  preserves P m -> (forall a, preserves P (f a)) -> preserves P (m ≫= f).
Proof.
  intros Hm Hf. apply (preserves_bind_post P (fun _ => True)); auto.
Qed.

Lemma preserves_try_except {A} P (body : M A) handler :
  preserves P body -> (forall e, preserves P (handler e)) ->
  preserves P (try_except body handler).
Proof.
  intros Hb Hh st HP. unfold try_except.
  specialize (Hb st HP). destruct (body st) as [st' [a|e]]; simpl in *.
  - exact Hb.
  - now apply Hh.
Qed.

Lemma preserves_if {A} P (b : bool) (m1 m2 : M A) :
  preserves P m1 -> preserves P m2 -> preserves P (if b then m1 else m2).
Proof. now destruct b. Qed.

Section Stable.

Context `{Collaborators}.
Variable P : State -> Prop.
Variable good : nat -> Prop.
Hypothesis HP : stable P good.

Lemma preserves_sink_write text : preserves P (sink_write text).
Proof.
  intros st Hst. unfold sink_write.
  destruct (interpreter st) as [buf|] eqn:E; simpl; [|exact Hst].
  now apply (stable_sink P good HP).
Qed.

Lemma preserves_print_stderr line : preserves P (print_stderr line).
Proof. intros st Hst. now apply (stable_stderr P good HP). Qed.

Lemma preserves_log_event e : preserves P (log_event e).
Proof. intros st Hst. now apply (stable_trace P good HP). Qed.

Lemma preserves_interpreter_invoke name arg :
  preserves P (interpreter_invoke name arg).
Proof.
  intros st Hst. unfold interpreter_invoke.
  destruct (interpreter st); [now apply preserves_log_event|exact Hst].
Qed.

Lemma preserves_open_read p : preserves P (open_read p).
Proof.
  intros st Hst. unfold open_read.
  destruct (files st !! p); simpl; [|exact Hst].
  now apply (stable_trace P good HP).
Qed.

Lemma preserves_get_template_path name : preserves P (get_template_path name).
Proof.
  intros st Hst. unfold get_template_path.
  now destruct (find_template st (template_prefix_path st) name).
Qed.

Lemma preserves_dict_new d : preserves P (dict_new d).
Proof. intros st Hst. now apply (stable_alloc P good HP). Qed.

Lemma dict_new_good d st st' l :
  P st -> dict_new d st = (st', Return l) -> good l.
Proof.
  intros Hst E. unfold dict_new in E. inversion E; subst.
  now apply (stable_fresh P good HP).
Qed.

Lemma preserves_dict_set l key v : good l -> preserves P (dict_set l key v).
Proof. intros Hl st Hst. now apply (stable_set P good HP). Qed.

Lemma preserves_exec_instr call locals i :
  good locals ->
  (forall name kwargs, preserves P (call name kwargs)) ->
  preserves P (exec_instr call locals i).
Proof.
  intros Hl Hcall. destruct i as [text|name|name v|name kwargs|e]; simpl.
  - apply preserves_sink_write.
  - apply preserves_bind; [apply preserves_gets|].
    intros [v|]; [apply preserves_sink_write|apply preserves_raise].
  - now apply preserves_dict_set.
  - apply preserves_bind; [apply preserves_gets|].
    intros [[]|]; first [apply Hcall|apply preserves_raise].
  - apply preserves_raise.
Qed.

Lemma preserves_exec call locals items :
  good locals ->
  (forall name kwargs, preserves P (call name kwargs)) ->
  preserves P (exec call locals items).
Proof.
  intros Hl Hcall. induction items as [|i rest IH]; simpl.
  - apply preserves_ret.
  - apply preserves_bind; [now apply preserves_exec_instr|auto].
Qed.

Lemma preserves_interpreter_string call content locals :
  good locals ->
  (forall name kwargs, preserves P (call name kwargs)) ->
  preserves P (interpreter_string call content locals).
Proof.
  intros Hl Hcall st Hst. unfold interpreter_string.
  destruct (interpreter st); [now apply preserves_exec|exact Hst].
Qed.

(** A nested inclusion, to any depth, keeps a stable property. *)
Lemma preserves_expand_nested depth name kwargs :
  preserves P (_expand_template depth name kwargs).
Proof.
  revert name kwargs. induction depth as [|depth IH]; intros name kwargs; simpl.
  - apply preserves_raise.
  - apply (preserves_bind_post P good); [apply preserves_dict_new| |].
    { intros st st' l Hst E. eapply dict_new_good; eauto. }
    intros l Hl. apply preserves_bind; [apply preserves_get_template_path|].
    intros path. apply preserves_bind; [now apply preserves_dict_set|].
    intros _. apply preserves_bind; [apply preserves_gets|].
    intros interp. apply preserves_bind.
    { destruct interp; [apply preserves_ret|apply preserves_raise]. }
    intros _. apply preserves_bind.
    { apply preserves_bind; [apply preserves_open_read|].
      intros content. apply preserves_bind; [apply preserves_interpreter_invoke|].
      intros _. apply preserves_ret. }
    intros content. apply preserves_bind.
    + apply preserves_try_except.
      * now apply preserves_interpreter_string.
      * intros e. apply preserves_bind; [apply preserves_print_stderr|].
        intros _. apply preserves_raise.
    + intros _. apply preserves_interpreter_invoke.
Qed.

(** So does the body of the [try] of [expand_template]. *)
Lemma preserves_expand_try depth name path data :
  good data -> preserves P (expand_template_try depth name path data).
Proof.
  intros Hd. unfold expand_template_try. apply preserves_bind.
  { apply preserves_bind; [apply preserves_open_read|].
    intros content. apply preserves_bind; [apply preserves_interpreter_invoke|].
    intros _. apply preserves_ret. }
  intros content. apply preserves_bind.
  - apply preserves_interpreter_string; [exact Hd|].
    intros n kw. apply preserves_expand_nested.
  - intros _. apply preserves_interpreter_invoke.
Qed.

End Stable.

Lemma append_cons x (a b : string) : String x a +:+ b = String x (a +:+ b).
Proof. reflexivity. Qed.

Lemma append_assoc (a b c : string) : (a +:+ b) +:+ c = a +:+ (b +:+ c).
Proof.
  induction a as [|x a IH]; [reflexivity|]. now rewrite !append_cons, IH.
Qed.

Lemma append_empty_r (a : string) : a +:+ "" = a.
Proof.
  induction a as [|x a IH]; [reflexivity|]. now rewrite append_cons, IH.
Qed.

Lemma stable_frame F D C T : stable (frame F D C T) (fun _ => True).
Proof. split; intros; try exact I; assumption. Qed.

Lemma fresh_not_allocated (h : gmap nat (gmap string value)) l d :
  h !! l = Some d -> fresh (dom h) <> l.
Proof.
  intros Hl E. apply (is_fresh (dom h)). rewrite E. apply elem_of_dom. eauto.
Qed.

Lemma stable_keeps l d : stable (keeps l d) (fun l' => l' <> l).
Proof.
  split; unfold keeps; simpl.
  - auto.
  - auto.
  - auto.
  - intros d' st Hl. rewrite lookup_insert_ne; [assumption|].
    eapply fresh_not_allocated; eauto.
  - intros st Hl. eapply fresh_not_allocated; eauto.
  - intros l' key v st Hne Hl. rewrite lookup_alter_ne; [assumption|auto].
Qed.

Lemma stable_sink_extends buf : stable (sink_extends buf) (fun _ => True).
Proof.
  split; unfold sink_extends; simpl; auto.
  intros text buf' st [more E] E'. rewrite E in E'. inversion E'; subst.
  exists (more +:+ text). now rewrite append_assoc.
Qed.

Lemma stable_stderr_extends lines : stable (stderr_extends lines) (fun _ => True).
Proof.
  split; unfold stderr_extends; simpl; auto.
  intros line st [more E]. rewrite E. exists (more ++ [line]).
  now rewrite <- app_assoc.
Qed.

Module NamingFacts.
Import Naming.

Lemma lower_char_not_upper (c : ascii) : is_upper (lower_char c) = false.
Proof. destruct c as [[] [] [] [] [] [] [] []]; reflexivity. Qed.

Lemma lower_char_idem (c : ascii) : lower_char (lower_char c) = lower_char c.
Proof. destruct c as [[] [] [] [] [] [] [] []]; reflexivity. Qed.

Lemma lower_no_upper (s : string) : no_upper (lower s) = true.
Proof.
  induction s as [|c tl IH]; simpl; [reflexivity|].
  now rewrite lower_char_not_upper, IH.
Qed.

Lemma lower_idem (s : string) : lower (lower s) = lower s.
Proof.
  induction s as [|c tl IH]; simpl; [reflexivity|].
  now rewrite lower_char_idem, IH.
Qed.

Lemma match_upper_lower_needs_upper : needs_upper match_upper_lower.
Proof.
  intros s Hs. destruct s as [|c [|u [|l tl]]]; try reflexivity.
  simpl in Hs. apply andb_prop in Hs as [_ Hs]. apply andb_prop in Hs as [Hu _].
  unfold match_upper_lower. destruct (is_upper u); [discriminate|].
  now rewrite andb_false_r.
Qed.

Lemma match_lower_upper_needs_upper : needs_upper match_lower_upper.
Proof.
  intros s Hs. destruct s as [|c [|u tl]]; try reflexivity.
  simpl in Hs. apply andb_prop in Hs as [_ Hs]. apply andb_prop in Hs as [Hu _].
  unfold match_lower_upper. destruct (is_upper u); [discriminate|].
  now rewrite andb_false_r.
Qed.

Lemma re_sub_from_no_match match_at fuel s :
  needs_upper match_at -> no_upper s = true -> re_sub_from match_at fuel s = s.
Proof.
  intros Hm. revert s. induction fuel as [|n IH]; intros s Hs; simpl; [reflexivity|].
  rewrite (Hm s Hs). destruct s as [|c tl]; [reflexivity|].
  simpl in Hs. apply andb_prop in Hs as [_ Hs]. now rewrite IH.
Qed.

Lemma re_sub_no_match match_at s :
  needs_upper match_at -> no_upper s = true -> re_sub match_at s = s.
Proof. intros. now apply re_sub_from_no_match. Qed.

Lemma re_sub_from_enough match_at :
  consumes match_at ->
  forall fuel s, (String.length s <= fuel)%nat ->
    re_sub_from match_at fuel s = re_sub match_at s.
Proof.
  intros Hc. unfold re_sub.
  assert (Hgen : forall n m s, (String.length s <= n)%nat -> (String.length s <= m)%nat ->
            re_sub_from match_at n s = re_sub_from match_at m s).
  { induction n as [|n IH]; intros m s Hn Hm.
    - destruct s; [|simpl in Hn; lia]. destruct m; simpl; [reflexivity|].
      destruct (match_at "") as [[repl rest]|] eqn:E; [|reflexivity].
      apply Hc in E. simpl in E. lia.
    - destruct m as [|m].
      + destruct s; [|simpl in Hm; lia]. simpl.
        destruct (match_at "") as [[repl rest]|] eqn:E; [|reflexivity].
        apply Hc in E. simpl in E. lia.
      + simpl. destruct (match_at s) as [[repl rest]|] eqn:E.
        * apply Hc in E. f_equal. apply IH; lia.
        * destruct s as [|c tl]; [reflexivity|]. simpl in *. f_equal. apply IH; lia. }
  intros fuel s Hl. apply Hgen; lia.
Qed.

Lemma span_lower_length s run rest :
  span_lower s = (run, rest) -> (String.length rest <= String.length s)%nat.
Proof.
  revert run rest. induction s as [|c tl IH]; intros run rest E; simpl in E.
  - inversion E. simpl. lia.
  - destruct (is_lower c).
    + destruct (span_lower tl) as [r' rest'] eqn:E'. inversion E; subst.
      specialize (IH _ _ eq_refl). simpl. lia.
    + inversion E; subst. lia.
Qed.

Lemma match_upper_lower_consumes : consumes match_upper_lower.
Proof.
  intros s repl rest E. destruct s as [|c [|u [|l tl]]]; try discriminate.
  unfold match_upper_lower in E.
  destruct (is_dot c && is_upper u && is_lower l); [|discriminate].
  destruct (span_lower tl) as [run rest'] eqn:E'. inversion E; subst.
  apply span_lower_length in E'. simpl. lia.
Qed.

Lemma match_lower_upper_consumes : consumes match_lower_upper.
Proof.
  intros s repl rest E. destruct s as [|c [|u tl]]; try discriminate.
  unfold match_lower_upper in E.
  destruct (is_lower_or_digit c && is_upper u); [|discriminate].
  inversion E; subst. simpl. lia.
Qed.

(** C8. The naming normalizer is idempotent on every string; it sends
    "CameraInfo" to "camera_info" and "IMUData2" to "imu_data2"; being a
    total function it is deterministic and raises nothing. *)
Theorem normalizer_idempotent :
  (forall s : string,
     convert_camel_case_to_lower_case_underscore
       (convert_camel_case_to_lower_case_underscore s)
     = convert_camel_case_to_lower_case_underscore s)
  /\ convert_camel_case_to_lower_case_underscore "CameraInfo" = "camera_info"
  /\ convert_camel_case_to_lower_case_underscore "IMUData2" = "imu_data2".
Proof.
  split; [|split; reflexivity].
  intros s. unfold convert_camel_case_to_lower_case_underscore.
  cbv zeta.
  set (t := lower (re_sub match_lower_upper (re_sub match_upper_lower s))).
  assert (Ht : no_upper t = true) by apply lower_no_upper.
  rewrite (re_sub_no_match _ t match_upper_lower_needs_upper Ht).
  rewrite (re_sub_no_match _ t match_lower_upper_needs_upper Ht).
  apply lower_idem.
Qed.

End NamingFacts.

Module StalenessFacts.

Lemma newest_of_some n l :
  exists m, newest_of (Some n) l = Some m /\ n <= m /\ (m = n \/ m ∈ l) /\
            forall t, t ∈ l -> t <= m.
Proof.
  revert n. induction l as [|t l IH]; intros n; simpl.
  - exists n. repeat split; [lia|now left|]. intros t Ht. inversion Ht.
  - destruct (IH (Z.max n t)) as (m & E & Hle & Hin & Hall).
    exists m. split; [exact E|]. split; [lia|]. split.
    + destruct Hin as [->|Hin].
      * destruct (Z.max_spec n t) as [[_ ->]|[_ ->]]; [right; left|now left].
      * right. now right.
    + intros t' Ht'. apply elem_of_cons in Ht' as [->|Ht']; [lia|auto].
Qed.

Lemma newest_loop_all_exist st deps acc :
  (forall d, d ∈ deps -> is_Some (files st !! d)) ->
  exists times,
    Forall2 (fun d t => exists f, files st !! d = Some f /\ file_mtime f = t) deps times /\
    newest_loop deps acc st = (st, Return (newest_of acc times)).
Proof.
  revert acc. induction deps as [|d deps IH]; intros acc Hall.
  - exists []. split; [constructor|reflexivity].
  - destruct (Hall d) as [f Hf]; [left|].
    destruct (IH (match acc with
                  | None => Some (file_mtime f)
                  | Some newest => if file_mtime f >? newest then Some (file_mtime f) else Some newest
                  end)) as (times & HF & E).
    { intros d' Hd'. apply Hall. now right. }
    exists (file_mtime f :: times). split.
    + constructor; [eauto|exact HF].
    + simpl. rewrite bind_unfold. unfold os_path_getmtime. rewrite Hf. rewrite E.
      f_equal. f_equal. simpl. f_equal. destruct acc as [n|]; [|reflexivity].
      destruct (Z.gtb_spec (file_mtime f) n); f_equal; lia.
Qed.

Lemma newest_loop_missing st deps acc :
  (exists d, d ∈ deps /\ files st !! d = None) ->
  exists e, newest_loop deps acc st = (st, Raise e) /\ is_OSError (exn_cls e) = true.
Proof.
  revert acc. induction deps as [|d deps IH]; intros acc (d' & Hin & Hd').
  - inversion Hin.
  - simpl. rewrite bind_unfold. unfold os_path_getmtime.
    destruct (files st !! d) as [f|] eqn:Hf.
    + apply IH. apply elem_of_cons in Hin as [->|Hin]; [congruence|eauto].
    + eexists. split; [reflexivity|]. unfold missing. simpl.
      now destruct (under_file st d).
Qed.

(** C7. [get_newest_modification_time] returns [None] for the empty list;
    for a non-empty list of existing files it returns the largest of their
    modification times (the time of [f] itself for [[f]]); and as soon as a
    listed file does not exist it raises an [OSError] instead of passing
    over it. *)
Theorem newest_modification_time (st : State) :
  get_newest_modification_time [] st = (st, Return None)
  /\ (forall deps, deps <> [] ->
        (forall d, d ∈ deps -> is_Some (files st !! d)) ->
        exists m, get_newest_modification_time deps st = (st, Return (Some m))
          /\ (exists d f, d ∈ deps /\ files st !! d = Some f /\ file_mtime f = m)
          /\ (forall d f, d ∈ deps -> files st !! d = Some f -> file_mtime f <= m))
  /\ (forall d f, files st !! d = Some f ->
        get_newest_modification_time [d] st = (st, Return (Some (file_mtime f))))
  /\ (forall deps, (exists d, d ∈ deps /\ files st !! d = None) ->
        exists e, get_newest_modification_time deps st = (st, Raise e)
          /\ is_OSError (exn_cls e) = true).
Proof.
  split; [reflexivity|]. split; [|split].
  - intros deps Hne Hall. unfold get_newest_modification_time.
    destruct (newest_loop_all_exist st deps None Hall) as (times & HF & E).
    rewrite E. destruct HF as [|d t deps times (f & Hf & Ht) HF]; [congruence|].
    simpl. destruct (newest_of_some t times) as (m & Em & Hle & Hin & Hmax).
    exists m. split; [now rewrite Em|]. split.
    + destruct Hin as [->|Hin].
      * exists d, f. split; [left|]. split; assumption.
      * apply list_elem_of_lookup in Hin as [i Hi].
        destruct (Forall2_lookup_r _ _ _ _ _ HF Hi) as (d' & Hd' & f' & Hf' & Ht').
        exists d', f'. split; [right; eapply list_elem_of_lookup_2; eauto|]. split; assumption.
    + intros d' f' Hd' Hf'. apply elem_of_cons in Hd' as [->|Hd'].
      * assert (f' = f) by congruence. subst. lia.
      * apply list_elem_of_lookup in Hd' as [i Hi].
        destruct (Forall2_lookup_l _ _ _ _ _ HF Hi) as (t' & Ht' & f'' & Hf'' & Ht'').
        assert (f'' = f') by congruence. subst. apply Hmax.
        eapply list_elem_of_lookup_2; eauto.
  - intros d f Hf. unfold get_newest_modification_time. simpl.
    rewrite bind_unfold. unfold os_path_getmtime. now rewrite Hf.
  - intros deps Hex. unfold get_newest_modification_time.
    destruct (newest_loop_missing st deps None Hex) as (e & E & Hc).
    exists e. split; [exact E|]. exact Hc.
Qed.

End StalenessFacts.


(* ===================================================================== *)
(** ** The template search path                                           *)
(* ===================================================================== *)

Module SearchPathFacts.

(** What [find_template] returns is the first hit in list order. *)
Lemma find_template_first st prefix_path name p :
  find_template st prefix_path name = Some p <->
  exists before basepath after,
    prefix_path = before ++ basepath :: after
    /\ p = Path_div basepath name
    /\ path_exists st (Path_str p) = true
    /\ forall b, b ∈ before -> path_exists st (Path_str (Path_div b name)) = false.
Proof.
  revert p. induction prefix_path as [|b rest IH]; intros p; simpl.
  - split; [discriminate|]. intros (before & b & after & E & _).
    destruct before; discriminate.
  - destruct (path_exists st (Path_str (Path_div b name))) eqn:Eb.
    + split.
      * intros [= <-]. exists [], b, rest. repeat split; auto.
        intros b' Hb'. inversion Hb'.
      * intros (before & b' & after & E & -> & Hex & Hno).
        destruct before as [|b0 before]; simpl in E; inversion E; subst; [reflexivity|].
        rewrite (Hno b0) in Eb; [discriminate|left].
    + rewrite IH. split.
      * intros (before & b' & after & -> & -> & Hex & Hno).
        exists (b :: before), b', after. repeat split; auto.
        intros b0 Hb0. apply elem_of_cons in Hb0 as [->|Hb0]; auto.
      * intros (before & b' & after & E & -> & Hex & Hno).
        destruct before as [|b0 before]; simpl in E; inversion E; subst.
        { congruence. }
        exists before, b', after. repeat split; auto.
        intros b1 Hb1. apply Hno. now right.
Qed.

Lemma find_template_none st prefix_path name :
  find_template st prefix_path name = None <->
  forall b, b ∈ prefix_path -> path_exists st (Path_str (Path_div b name)) = false.
Proof.
  induction prefix_path as [|b rest IH]; simpl.
  - split; [|reflexivity]. intros _ b Hb. inversion Hb.
  - destruct (path_exists st (Path_str (Path_div b name))) eqn:Eb.
    + split; [discriminate|]. intros Hall. rewrite Hall in Eb; [discriminate|left].
    + rewrite IH. split.
      * intros Hall b' Hb'. apply elem_of_cons in Hb' as [->|Hb']; auto.
      * intros Hall b' Hb'. apply Hall. now right.
Qed.

(** C2, as amended.  A template is resolved by probing the directories of
    the search path in the order they were pushed, the earliest pushed
    first and the most recently pushed last (a push puts a directory behind
    all others): the result is the first directory in that order which
    holds the name, and the "failed to find template" error is raised
    exactly when no directory on the path holds it.  Lookup changes
    nothing. *)
Theorem lookup_in_push_order (template_name : string) (st : State) :
  (forall p,
     get_template_path template_name st = (st, Return p) <->
     exists earlier basepath later,
       template_prefix_path st = earlier ++ basepath :: later
       /\ p = Path_div basepath template_name
       /\ path_exists st (Path_str p) = true
       /\ forall b, b ∈ earlier ->
            path_exists st (Path_str (Path_div b template_name)) = false)
  /\ (get_template_path template_name st
        = (st, Raise (mkExn RuntimeError
                        ("Failed to find template '" +:+ template_name +:+ "'")))
      <-> forall b, b ∈ template_prefix_path st ->
            path_exists st (Path_str (Path_div b template_name)) = false)
  /\ (get_template_path template_name st).1 = st
  /\ (forall pushed,
        template_prefix_path (prefix_path_append pushed st).1
        = template_prefix_path st ++ [pushed]).
Proof.
  unfold get_template_path. split; [|split; [|split; [|reflexivity]]].
  - intros p. rewrite <- find_template_first.
    destruct (find_template st (template_prefix_path st) template_name) as [q|].
    + split; [now intros [= ->]|now intros [= ->]].
    + split; discriminate.
  - rewrite <- find_template_none.
    destruct (find_template st (template_prefix_path st) template_name) as [q|].
    + split; discriminate.
    + split; reflexivity.
  - now destruct (find_template st (template_prefix_path st) template_name).
Qed.

(** C2, as stated, fails: with [/a] pushed first and [/b] pushed last, and
    [t.em] present in both, the lookup answers with [/a/t.em], while
    probing the most recently pushed directory first gives [/b/t.em]. *)
Lemma lookup_not_most_recent_first :
  template_prefix_path
    (prefix_path_append (Path_of "/b")
       (prefix_path_append (Path_of "/a") Demo.start).1).1
    = template_prefix_path Demo.two_pushed
  /\ path_exists Demo.two_pushed "/a/t.em" = true
  /\ path_exists Demo.two_pushed "/b/t.em" = true
  /\ (get_template_path "t.em" Demo.two_pushed).2 = Return (Path_of "/a/t.em")
  /\ (get_template_path_spec "t.em" Demo.two_pushed).2 = Return (Path_of "/b/t.em")
  /\ (get_template_path "t.em" Demo.two_pushed).2
     <> (get_template_path_spec "t.em" Demo.two_pushed).2.
Proof. repeat split; try reflexivity. vm_compute. discriminate. Qed.

End SearchPathFacts.

(* ===================================================================== *)
(** ** The file system                                                    *)
(* ===================================================================== *)

Module FileSystemFacts.

Lemma append_length (a b : string) :
  String.length (a +:+ b) = (String.length a + String.length b)%nat.
Proof.
  induction a as [|x a IH]; [reflexivity|]. rewrite append_cons. simpl. now rewrite IH.
Qed.

Lemma split_last_app sep s a b :
  split_last sep s = Some (a, b) -> s = a +:+ String sep b.
Proof.
  revert a b. induction s as [|c tl IH]; intros a b E; simpl in E; [discriminate|].
  destruct (split_last sep tl) as [[a' b']|] eqn:E'.
  - inversion E; subst. rewrite append_cons. f_equal. now apply IH.
  - destruct (Ascii.eqb c sep) eqn:Ec; [|discriminate].
    apply Ascii.eqb_eq in Ec. inversion E; subst. reflexivity.
Qed.

Lemma rstrip_slash_length a :
  (String.length (rstrip_slash a) <= String.length a)%nat.
Proof.
  induction a as [|c tl IH]; simpl; [lia|].
  destruct (rstrip_slash tl) eqn:E.
  - destruct (Ascii.eqb c slash); simpl; lia.
  - simpl in *. lia.
Qed.

(** The directory part of a path is shorter than the path, unless it is
    the path itself (as for the root). *)
Lemma dirname_shorter p :
  os_path_dirname p <> p ->
  (String.length (os_path_dirname p) < String.length p)%nat.
Proof.
  unfold os_path_dirname. destruct (split_last slash p) as [[a b]|] eqn:E.
  - apply split_last_app in E. subst p.
    destruct (all_slashes a).
    + intros Hne. rewrite !append_length. simpl.
      destruct b as [|c b]; [contradiction|]. simpl. lia.
    + intros _. pose proof (rstrip_slash_length a). rewrite append_length. simpl. lia.
  - intros Hne. destruct p; [contradiction|]. simpl. lia.
Qed.

Lemma ancestors_fuel n :
  forall m d, (String.length d <= n)%nat -> (String.length d <= m)%nat ->
    ancestors n d = ancestors m d.
Proof.
  induction n as [|n IH]; intros m d Hn Hm.
  - destruct d; [|simpl in Hn; lia]. destruct m; reflexivity.
  - destruct m as [|m].
    + destruct d; [reflexivity|simpl in Hm; lia].
    + simpl. destruct (String.eqb (os_path_dirname d) "" ||
                       String.eqb (os_path_dirname d) d) eqn:E; [reflexivity|].
      apply orb_false_elim in E as [_ E]. apply String.eqb_neq in E.
      pose proof (dirname_shorter d E). f_equal. apply IH; lia.
Qed.

Lemma ancestors_unfold p :
  os_path_dirname p <> "" -> os_path_dirname p <> p ->
  ancestors (String.length p) p
  = os_path_dirname p
    :: ancestors (String.length (os_path_dirname p)) (os_path_dirname p).
Proof.
  intros Hne Hp. pose proof (dirname_shorter p Hp).
  destruct (String.length p) as [|n] eqn:El; [lia|]. simpl.
  apply String.eqb_neq in Hne, Hp. rewrite Hne, Hp. simpl.
  f_equal. apply ancestors_fuel; lia.
Qed.

(** A path lies below a regular file when its directory is one, or lies
    below one. *)
Lemma under_file_parent st p :
  os_path_dirname p <> "" -> os_path_dirname p <> p ->
  under_file st p
  = path_exists st (os_path_dirname p) || under_file st (os_path_dirname p).
Proof.
  intros Hne Hp. unfold under_file. now rewrite (ancestors_unfold p Hne Hp).
Qed.

Lemma under_file_same_files st st' p :
  files st' = files st -> under_file st' p = under_file st p.
Proof.
  intros E. unfold under_file.
  assert (Hsame : forall a, path_exists st' a = path_exists st a)
    by (intros a; unfold path_exists; now rewrite E).
  induction (ancestors (String.length p) p) as [|a l IH]; simpl; [reflexivity|].
  now rewrite Hsame, IH.
Qed.

Lemma under_file_has_dirname st p :
  under_file st p = true ->
  os_path_dirname p <> "" /\ os_path_dirname p <> p.
Proof.
  unfold under_file. destruct (String.length p) as [|n]; simpl; [discriminate|].
  destruct (String.eqb (os_path_dirname p) "" || String.eqb (os_path_dirname p) p) eqn:E;
    [discriminate|].
  apply orb_false_elim in E as [E1 E2]. intros _.
  split; now apply String.eqb_neq.
Qed.

(** Where the directory of [p] neither is nor lies below a regular
    file. *)
Lemma under_file_dirname st p :
  os_path_dirname p <> "" ->
  path_exists st p = false ->
  under_file st p = false ->
  path_exists st (os_path_dirname p) = false
  /\ under_file st (os_path_dirname p) = false.
Proof.
  intros Hne Hex Hun.
  destruct (String.eqb (os_path_dirname p) p) eqn:E.
  - apply String.eqb_eq in E. rewrite E. now split.
  - apply String.eqb_neq in E. rewrite (under_file_parent st p Hne E) in Hun.
    now apply orb_false_elim in Hun.
Qed.

End FileSystemFacts.

(* ===================================================================== *)
(** ** The expander                                                       *)
(* ===================================================================== *)

Module ExpanderFacts.

Section Facts.

Context `{Collaborators}.

(** What a successful entry leaves behind. *)
Lemma enter_returns template_name data template_basepath st st1 name path copy :
  expand_template_enter template_name data template_basepath st
    = (st1, Return (name, path, copy)) ->
  name = (resolve_template template_name template_basepath).2
  /\ files st1 = files st /\ dirs st1 = dirs st /\ clock st1 = clock st
  /\ template_prefix_path st1
     = template_prefix_path st ++ [(resolve_template template_name template_basepath).1]
  /\ stderr st1 = stderr st /\ trace st1 = trace st
  /\ interpreter st1 = Some EmptyString
  /\ exists d, heap st !! data = Some d
       /\ copy = fresh (dom (heap st))
       /\ heap st1 = <[copy := <["TEMPLATE" := VTemplateFn]> d]> (heap st).
Proof.
  unfold expand_template_enter.
  destruct (resolve_template template_name template_basepath) as [b n]. simpl.
  rewrite bind_unfold. simpl. rewrite bind_unfold. unfold get_template_path. simpl.
  destruct (find_template _ _ n) as [p|]; [|discriminate].
  rewrite bind_unfold. simpl. rewrite bind_unfold. unfold dict_copy. simpl.
  destruct (heap st !! data) as [d|] eqn:Hd; [|discriminate].
  simpl. intros E. inversion E; subst. simpl.
  repeat split; try reflexivity.
  exists d. repeat split. now rewrite alter_insert_eq.
Qed.

(** An entry that raises failed to find the template (or was handed
    something that is no dict), and leaves the search path extended. *)
Lemma enter_raises template_name data template_basepath st st1 e :
  expand_template_enter template_name data template_basepath st = (st1, Raise e) ->
  files st1 = files st /\ dirs st1 = dirs st /\ clock st1 = clock st
  /\ heap st1 = heap st /\ stderr st1 = stderr st
  /\ template_prefix_path st1
     = template_prefix_path st ++ [(resolve_template template_name template_basepath).1].
Proof.
  unfold expand_template_enter.
  destruct (resolve_template template_name template_basepath) as [b n]. simpl.
  rewrite bind_unfold. simpl. rewrite bind_unfold. unfold get_template_path. simpl.
  destruct (find_template _ _ n) as [p|].
  - rewrite bind_unfold. simpl. rewrite bind_unfold. unfold dict_copy. simpl.
    destruct (heap st !! data) as [d|] eqn:Hd; [discriminate|].
    intros E. inversion E; subst. simpl. repeat split; reflexivity.
  - intros E. inversion E; subst. simpl. repeat split; reflexivity.
Qed.

(** The [except] clause: the output file is gone, the diagnostic is the
    last line printed, and the exception goes on. *)
Lemma except_clause name output_file e st :
  exists st',
    expand_template_except name output_file e st = (st', Raise e)
    /\ files st' = delete output_file (files st)
    /\ dirs st' = dirs st /\ clock st' = clock st /\ heap st' = heap st
    /\ template_prefix_path st' = template_prefix_path st
    /\ stderr st' = stderr st ++ [expand_diagnostic e name output_file].
Proof.
  unfold expand_template_except. rewrite bind_unfold. unfold os_path_exists, gets.
  unfold path_exists. destruct (files st !! output_file) as [f|] eqn:Hf.
  - rewrite bool_decide_eq_true_2 by eauto. rewrite bind_unfold.
    unfold os_remove. rewrite Hf. rewrite bind_unfold. simpl.
    eexists. split; [reflexivity|]. simpl. repeat split; reflexivity.
  - rewrite bool_decide_eq_false_2 by (intros [? ?]; discriminate).
    rewrite bind_unfold. simpl. rewrite bind_unfold. simpl.
    eexists. split; [reflexivity|]. simpl. rewrite delete_id by assumption.
    repeat split; reflexivity.
Qed.

(** The body of the [try] touches neither the file system nor the search
    path. *)
Lemma try_frame depth name path copy st :
  let st' := (expand_template_try depth name path copy st).1 in
  files st' = files st /\ dirs st' = dirs st /\ clock st' = clock st
  /\ template_prefix_path st' = template_prefix_path st.
Proof.
  apply (preserves_expand_try _ _ (stable_frame _ _ _ _)); [exact I|].
  repeat split.
Qed.

Lemma removelast_snoc {A} (l : list A) x : removelast (l ++ [x]) = l.
Proof. apply removelast_last. Qed.

Lemma pop_after_push st T b :
  template_prefix_path st = T ++ [b] ->
  prefix_path_pop st = (set_template_prefix_path (fun l => removelast l) st, Return tt).
Proof.
  intros E. unfold prefix_path_pop. rewrite E. now destruct T.
Qed.


(** The write decision on its own: what lines 226-242 do with a content. *)
Lemma unchanged_output_files st st' output_file minimum content :
  files st' = files st ->
  unchanged_output st' output_file minimum content
  <-> unchanged_output st output_file minimum content.
Proof. intros E. unfold unchanged_output. now rewrite E. Qed.

Lemma write_skips output_file minimum content st :
  unchanged_output st output_file minimum content ->
  exists st',
    expand_template_write output_file minimum content st = (st', Return tt)
    /\ files st' = files st /\ dirs st' = dirs st /\ clock st' = clock st
    /\ template_prefix_path st' = template_prefix_path st
    /\ heap st' = heap st /\ stderr st' = stderr st.
Proof.
  intros (f & Hf & Hmin & Htext).
  unfold expand_template_write. rewrite bind_unfold.
  unfold os_path_exists, gets, path_exists.
  rewrite bool_decide_eq_true_2 by eauto.
  rewrite bind_unfold. rewrite bind_unfold. unfold os_path_getmtime. rewrite Hf.
  assert (Hc : match minimum with
               | Some m => file_mtime f >? m
               | None => true
               end = true).
  { destruct minimum as [m|]; [|reflexivity]. apply Z.gtb_lt. lia. }
  rewrite Hc. rewrite bind_unfold. unfold open_read. rewrite Hf.
  simpl. rewrite Htext, String.eqb_refl. simpl.
  eexists. split; [reflexivity|]. simpl. repeat split; reflexivity.
Qed.

Lemma makedirs_tolerant d st :
  d <> EmptyString ->
  under_file st d = false ->
  exists st',
    try_except (os_makedirs d)
      (fun e => if decide (exn_cls e = FileExistsError) then mret tt else raise e) st
      = (st', Return tt)
    /\ files st' = files st /\ clock st' = clock st
    /\ template_prefix_path st' = template_prefix_path st
    /\ heap st' = heap st /\ stderr st' = stderr st
    /\ dirs st ⊆ dirs st'
    /\ (dir_exists st' d = true \/ path_exists st' d = true).
Proof.
  intros Hd Hun. unfold try_except, os_makedirs.
  destruct (String.eqb d "") eqn:E; [apply String.eqb_eq in E; contradiction|].
  rewrite Hun.
  destruct (dir_exists st d || path_exists st d) eqn:Ex.
  - simpl. exists st. repeat split; try reflexivity.
    apply orb_prop in Ex. destruct Ex; auto.
  - eexists. split; [reflexivity|]. simpl. repeat split; try reflexivity.
    + set_solver.
    + left. unfold dir_exists. simpl. rewrite bool_decide_eq_true_2 by set_solver.
      apply orb_true_r.
Qed.

Lemma write_writes output_file minimum content st :
  ~ unchanged_output st output_file minimum content ->
  under_file st output_file = false ->
  path_exists st output_file = true \/ os_path_dirname output_file <> EmptyString ->
  exists st',
    expand_template_write output_file minimum content st = (st', Return tt)
    /\ files st' = <[output_file := mkFile content (clock st)]> (files st)
    /\ clock st' = clock st + 1
    /\ dirs st ⊆ dirs st'
    /\ (path_exists st output_file = false ->
        dir_exists st' (os_path_dirname output_file) = true
        \/ path_exists st (os_path_dirname output_file) = true)
    /\ template_prefix_path st' = template_prefix_path st
    /\ heap st' = heap st /\ stderr st' = stderr st.
Proof.
  intros Hno Hun Hdir.
  unfold expand_template_write. rewrite bind_unfold.
  unfold os_path_exists, gets.
  destruct (files st !! output_file) as [f|] eqn:Hf.
  - unfold path_exists. rewrite Hf. rewrite bool_decide_eq_true_2 by eauto.
    rewrite bind_unfold. rewrite bind_unfold. unfold os_path_getmtime. rewrite Hf.
    destruct (match minimum with
              | Some m => file_mtime f >? m
              | None => true
              end) eqn:Hc.
    + rewrite bind_unfold. unfold open_read. rewrite Hf. simpl.
      destruct (String.eqb (read_text f) content) eqn:Ht.
      * exfalso. apply Hno. exists f. split; [assumption|]. split.
        -- destruct minimum as [m|]; [|exact I]. apply Z.gtb_lt in Hc. lia.
        -- now apply String.eqb_eq.
      * simpl. unfold open_write.
        rewrite (FileSystemFacts.under_file_same_files st) by reflexivity. rewrite Hun.
        eexists. split; [reflexivity|]. simpl.
        repeat split; try reflexivity. intros; discriminate.
    + simpl. unfold open_write. rewrite Hun.
      eexists. split; [reflexivity|]. simpl.
      repeat split; try reflexivity. intros; discriminate.
  - assert (Hex : path_exists st output_file = false).
    { unfold path_exists. rewrite Hf.
      apply bool_decide_eq_false_2. intros [? ?]. discriminate. }
    rewrite Hex. destruct Hdir as [Hex'|Hdir]; [congruence|].
    destruct (FileSystemFacts.under_file_dirname st output_file Hdir Hex Hun)
      as [_ Hund].
    rewrite bind_unfold.
    destruct (makedirs_tolerant (os_path_dirname output_file) st Hdir Hund)
      as (st1 & E1 & Hfiles & Hclock & Hpath & Hheap & Herr & Hdirs & Hthere).
    rewrite (bind_return _ _ _ _ _ E1). simpl. unfold open_write.
    rewrite (FileSystemFacts.under_file_same_files st st1) by exact Hfiles. rewrite Hun.
    eexists. split; [reflexivity|]. simpl. rewrite Hfiles, Hclock.
    repeat split; try assumption; try reflexivity.
    intros _. destruct Hthere as [Hthere|Hthere]; [left|right].
    + unfold dir_exists in *. simpl. exact Hthere.
    + unfold path_exists in *. now rewrite <- Hfiles.
Qed.

(** Below a regular file nothing can be created: the directory creation
    or the write is refused. *)
Lemma write_refused output_file minimum content st :
  ~ unchanged_output st output_file minimum content ->
  under_file st output_file = true ->
  exists st' e,
    expand_template_write output_file minimum content st = (st', Raise e)
    /\ exn_cls e = NotADirectoryError
    /\ files st' = files st /\ dirs st' = dirs st /\ clock st' = clock st
    /\ template_prefix_path st' = template_prefix_path st.
Proof.
  intros Hno Hun.
  destruct (FileSystemFacts.under_file_has_dirname st output_file Hun) as [Hdir Hp].
  unfold expand_template_write. rewrite bind_unfold.
  unfold os_path_exists, gets.
  destruct (files st !! output_file) as [f|] eqn:Hf.
  - unfold path_exists. rewrite Hf. rewrite bool_decide_eq_true_2 by eauto.
    rewrite bind_unfold. rewrite bind_unfold. unfold os_path_getmtime. rewrite Hf.
    destruct (match minimum with
              | Some m => file_mtime f >? m
              | None => true
              end) eqn:Hc.
    + rewrite bind_unfold. unfold open_read. rewrite Hf. simpl.
      destruct (String.eqb (read_text f) content) eqn:Ht.
      * exfalso. apply Hno. exists f. split; [assumption|]. split.
        -- destruct minimum as [m|]; [|exact I]. apply Z.gtb_lt in Hc. lia.
        -- now apply String.eqb_eq.
      * simpl. unfold open_write.
        rewrite (FileSystemFacts.under_file_same_files st) by reflexivity. rewrite Hun.
        eexists _, _. split; [reflexivity|]. repeat split; reflexivity.
    + simpl. unfold open_write. rewrite Hun.
      eexists _, _. split; [reflexivity|]. repeat split; reflexivity.
  - assert (Hex : path_exists st output_file = false).
    { unfold path_exists. rewrite Hf.
      apply bool_decide_eq_false_2. intros [? ?]. discriminate. }
    rewrite Hex. rewrite bind_unfold. rewrite bind_unfold.
    unfold try_except, os_makedirs.
    destruct (String.eqb (os_path_dirname output_file) "") eqn:E;
      [apply String.eqb_eq in E; contradiction|].
    destruct (under_file st (os_path_dirname output_file)) eqn:Hund.
    + simpl. eexists _, _. split; [reflexivity|]. repeat split; reflexivity.
    + rewrite (FileSystemFacts.under_file_parent st output_file Hdir Hp), Hund in Hun.
      rewrite orb_false_r in Hun. rewrite Hun, orb_true_r. simpl.
      unfold open_write.
      rewrite (FileSystemFacts.under_file_parent st output_file Hdir Hp), Hun. simpl.
      eexists _, _. split; [reflexivity|]. repeat split; reflexivity.
Qed.

(** For a bare file name that does not exist yet, [os.makedirs('')]
    raises and nothing is written. *)
Lemma write_bare_name output_file minimum content st :
  path_exists st output_file = false ->
  os_path_dirname output_file = EmptyString ->
  expand_template_write output_file minimum content st
  = (st, Raise (mkExn FileNotFoundError EmptyString)).
Proof.
  intros Hex Hdir. unfold expand_template_write. rewrite bind_unfold.
  unfold os_path_exists, gets. rewrite Hex. rewrite bind_unfold. rewrite bind_unfold.
  rewrite Hdir. reflexivity.
Qed.

(** A call that gets through rendering comes to the write decision with
    the file system, the search path and the caller's view as they were on
    entry. *)
Lemma renders_then_writes depth template_name data output_file minimum
    template_basepath post_process_callback st content :
  renders depth template_name data template_basepath post_process_callback st content ->
  exists st2,
    expand_template depth template_name data output_file minimum
      template_basepath post_process_callback st
    = expand_template_write output_file minimum content st2
    /\ files st2 = files st /\ dirs st2 = dirs st /\ clock st2 = clock st
    /\ template_prefix_path st2 = template_prefix_path st.
Proof.
  intros (st1 & name & path & copy & st2 & Henter & Htry & ->).
  destruct (enter_returns _ _ _ _ _ _ _ _ Henter)
    as (_ & Hf1 & Hd1 & Hc1 & Hp1 & _).
  pose proof (try_frame depth name path copy st1) as Hframe.
  rewrite Htry in Hframe. simpl in Hframe. destruct Hframe as (Hf2 & Hd2 & Hc2 & Hp2).
  exists (set_template_prefix_path (fun l => removelast l) st2).
  split.
  - unfold expand_template. rewrite (bind_return _ _ _ _ _ Henter).
    rewrite bind_unfold. unfold try_finally, try_except. rewrite Htry.
    rewrite (pop_after_push st2 (template_prefix_path st)
               (resolve_template template_name template_basepath).1)
      by (rewrite Hp2, Hp1; reflexivity).
    rewrite bind_unfold. simpl. reflexivity.
  - simpl. rewrite Hp2, Hp1, removelast_snoc. repeat split; congruence.
Qed.

(** The write decision can be made: by the rules of the skip test, the
    output is unchanged or it is not. *)
Lemma unchanged_output_dec st output_file minimum content :
  unchanged_output st output_file minimum content
  \/ ~ unchanged_output st output_file minimum content.
Proof.
  unfold unchanged_output.
  destruct (files st !! output_file) as [f|] eqn:Ef.
  - destruct (String.eqb (read_text f) content) eqn:Et.
    + apply String.eqb_eq in Et. destruct minimum as [m|].
      * destruct (Z_gt_dec (file_mtime f) m).
        -- left. eauto.
        -- right. intros (f' & E & ? & ?). congruence.
      * left. eauto.
    + right. intros (f' & E & _ & Et'). inversion E; subst.
      rewrite String.eqb_refl in Et. discriminate.
  - right. intros (f' & E & _). discriminate.
Qed.


(** C5. When rendering raises an error, at whatever depth of inclusion,
    [expand_template] leaves no file at the output path (a file that was
    there is deleted, nothing else on disk changes), prints as its last
    diagnostic the line that names the exception, the template and the
    destination, and raises the same error again. *)
Theorem rendering_failure_cleanup depth template_name data output_file minimum
    template_basepath post_process_callback st e :
  rendering_raises depth template_name data template_basepath st e ->
  exists st' nested,
    expand_template depth template_name data output_file minimum
      template_basepath post_process_callback st = (st', Raise e)
    /\ files st' !! output_file = None
    /\ files st' = delete output_file (files st)
    /\ dirs st' = dirs st /\ clock st' = clock st
    /\ stderr st'
       = stderr st ++ nested ++
         [class_name (exn_cls e) +:+ " when expanding '"
          +:+ (resolve_template template_name template_basepath).2
          +:+ "' into '" +:+ output_file +:+ "': " +:+ exn_str e].
Proof.
  intros (st1 & name & path & copy & st2 & Henter & Htry).
  destruct (enter_returns _ _ _ _ _ _ _ _ Henter)
    as (Hname & Hf1 & Hd1 & Hc1 & Hp1 & He1 & _).
  pose proof (try_frame depth name path copy st1) as Hframe.
  rewrite Htry in Hframe. simpl in Hframe. destruct Hframe as (Hf2 & Hd2 & Hc2 & Hp2).
  assert (Herr : stderr_extends (stderr st1) st2).
  { pose proof (preserves_expand_try _ _ (stable_stderr_extends (stderr st1))
                  depth name path copy I st1) as Hs.
    rewrite Htry in Hs. apply Hs. exists []. now rewrite app_nil_r. }
  destruct Herr as [nested Herr].
  destruct (except_clause name output_file e st2)
    as (st3 & Hexc & Hf3 & Hd3 & Hc3 & _ & Hp3 & He3).
  exists (set_template_prefix_path (fun l => removelast l) st3), nested.
  split.
  - unfold expand_template. rewrite (bind_return _ _ _ _ _ Henter).
    rewrite bind_unfold. unfold try_finally, try_except. rewrite Htry, Hexc.
    rewrite (pop_after_push st3 (template_prefix_path st)
               (resolve_template template_name template_basepath).1)
      by (rewrite Hp3, Hp2, Hp1; reflexivity).
    reflexivity.
  - simpl. rewrite Hf3, Hf2, Hf1. split; [apply lookup_delete_eq|].
    split; [reflexivity|]. split; [congruence|]. split; [congruence|].
    rewrite He3, Herr, He1, <- Hname. unfold expand_diagnostic.
    now rewrite <- app_assoc.
Qed.

(** The write decision changes files, directories and the clock only. *)
Lemma write_frame output_file minimum content st :
  let st' := (expand_template_write output_file minimum content st).1 in
  template_prefix_path st' = template_prefix_path st
  /\ heap st' = heap st /\ stderr st' = stderr st
  /\ interpreter st' = interpreter st.
Proof.
  unfold expand_template_write, os_path_exists, gets, os_path_getmtime, open_read,
    try_except, os_makedirs, open_write, modify, raise.
  unfold mbind, M_bind, mret, M_ret.
  repeat case_match; simplify_eq; simpl; repeat split; reflexivity.
Qed.

(** Once the template is found, the search path is the same after the
    call as before it, whether the call returns or raises. *)
Lemma search_path_restored depth template_name data output_file minimum
    template_basepath post_process_callback st st1 name path copy :
  expand_template_enter template_name data template_basepath st
    = (st1, Return (name, path, copy)) ->
  template_prefix_path
    (expand_template depth template_name data output_file minimum
       template_basepath post_process_callback st).1
  = template_prefix_path st.
Proof.
  intros Henter.
  destruct (enter_returns _ _ _ _ _ _ _ _ Henter) as (_ & _ & _ & _ & Hp1 & _).
  pose proof (try_frame depth name path copy st1) as Hframe.
  destruct (expand_template_try depth name path copy st1) as [st2 [[]|e]] eqn:Htry;
    simpl in Hframe; destruct Hframe as (_ & _ & _ & Hp2).
  - unfold expand_template. rewrite (bind_return _ _ _ _ _ Henter).
    rewrite bind_unfold. unfold try_finally, try_except. rewrite Htry.
    rewrite (pop_after_push st2 (template_prefix_path st)
               (resolve_template template_name template_basepath).1)
      by (rewrite Hp2, Hp1; reflexivity).
    rewrite bind_unfold. simpl.
    match goal with
    | |- template_prefix_path (expand_template_write ?o ?m ?c ?s).1 = _ =>
        destruct (write_frame o m c s) as (-> & _)
    end.
    simpl. now rewrite Hp2, Hp1, removelast_snoc.
  - destruct (except_clause name output_file e st2)
      as (st3 & Hexc & _ & _ & _ & _ & Hp3 & _).
    unfold expand_template. rewrite (bind_return _ _ _ _ _ Henter).
    rewrite bind_unfold. unfold try_finally, try_except. rewrite Htry, Hexc.
    rewrite (pop_after_push st3 (template_prefix_path st)
               (resolve_template template_name template_basepath).1)
      by (rewrite Hp3, Hp2, Hp1; reflexivity).
    simpl. now rewrite Hp3, Hp2, Hp1, removelast_snoc.
Qed.

Lemma find_template_same_files st st' prefix_path name :
  files st' = files st ->
  find_template st' prefix_path name = find_template st prefix_path name.
Proof.
  intros E. induction prefix_path as [|b rest IH]; simpl; [reflexivity|].
  unfold path_exists in *. now rewrite E, IH.
Qed.

(** But when the template is not found, the directory pushed on entry
    stays on the search path. *)
Lemma search_path_left_extended depth template_name data output_file minimum
    template_basepath post_process_callback st :
  find_template st
    (template_prefix_path st ++ [(resolve_template template_name template_basepath).1])
    (resolve_template template_name template_basepath).2 = None ->
  expand_template depth template_name data output_file minimum
    template_basepath post_process_callback st
  = (set_template_prefix_path
       (fun l => l ++ [(resolve_template template_name template_basepath).1]) st,
     Raise (template_not_found (resolve_template template_name template_basepath).2)).
Proof.
  intros Hnone. unfold expand_template, expand_template_enter.
  destruct (resolve_template template_name template_basepath) as [b n]. simpl in *.
  rewrite bind_unfold. rewrite bind_unfold. simpl. rewrite bind_unfold.
  unfold get_template_path. simpl.
  rewrite (find_template_same_files st) by reflexivity.
  now rewrite Hnone.
Qed.

(** C10. [expand_template] never changes the caller's context: whatever
    the call does, and however it ends, the caller's dict holds the
    bindings it held before.  The expander works on a copy, a different
    object which starts with the caller's bindings plus the injected
    [TEMPLATE] entry. *)
Theorem context_not_mutated depth template_name data output_file minimum
    template_basepath post_process_callback st d :
  heap st !! data = Some d ->
  heap (expand_template depth template_name data output_file minimum
          template_basepath post_process_callback st).1 !! data = Some d
  /\ (forall st1 name path copy,
        expand_template_enter template_name data template_basepath st
          = (st1, Return (name, path, copy)) ->
        copy <> data
        /\ heap st1 !! copy = Some (<["TEMPLATE" := VTemplateFn]> d)
        /\ heap st1 !! data = Some d).
Proof.
  intros Hd.
  assert (Hcopy : forall st1 name path copy,
            expand_template_enter template_name data template_basepath st
              = (st1, Return (name, path, copy)) ->
            copy <> data
            /\ heap st1 !! copy = Some (<["TEMPLATE" := VTemplateFn]> d)
            /\ heap st1 !! data = Some d).
  { intros st1 name path copy Henter.
    destruct (enter_returns _ _ _ _ _ _ _ _ Henter)
      as (_ & _ & _ & _ & _ & _ & _ & _ & d' & Hd' & -> & Hh).
    assert (d' = d) by congruence. subst d'.
    assert (Hne : fresh (dom (heap st)) <> data)
      by (eapply fresh_not_allocated; eauto).
    rewrite Hh. split; [exact Hne|]. split.
    - apply lookup_insert_eq.
    - now rewrite lookup_insert_ne. }
  split; [|exact Hcopy].
  unfold expand_template.
  destruct (expand_template_enter template_name data template_basepath st)
    as [st1 [[[name path] copy]|e]] eqn:Henter.
  - destruct (Hcopy _ _ _ _ eq_refl) as (Hne & _ & Hd1).
    rewrite bind_unfold, Henter. rewrite bind_unfold.
    pose proof (preserves_expand_try _ _ (stable_keeps data d)
                  depth name path copy Hne st1 Hd1) as Htry.
    unfold keeps in Htry. unfold try_finally, try_except.
    destruct (expand_template_try depth name path copy st1) as [st2 [[]|e]];
      simpl in Htry.
    + unfold prefix_path_pop.
      destruct (template_prefix_path st2) eqn:Hp; simpl; [exact Htry|].
      rewrite bind_unfold. simpl.
      match goal with
      | |- heap (expand_template_write ?o ?m ?c ?s).1 !! _ = _ =>
          destruct (write_frame o m c s) as (_ & -> & _)
      end.
      exact Htry.
    + destruct (except_clause name output_file e st2)
        as (st3 & -> & _ & _ & _ & Hh3 & _).
      unfold prefix_path_pop.
      destruct (template_prefix_path st3); simpl; now rewrite Hh3.
  - rewrite bind_unfold, Henter. simpl.
    destruct (enter_raises _ _ _ _ _ _ Henter) as (_ & _ & _ & -> & _).
    exact Hd.
Qed.

End Facts.

End ExpanderFacts.

(* ===================================================================== *)
(** ** Nested inclusion                                                   *)
(* ===================================================================== *)

Module NestedFacts.

Section Facts.

Context `{Collaborators}.

Lemma nested_start_eq st kwargs path :
  set_trace (fun l => l ++ [Hook "beforeInclude" (Path_str path)])
    (set_trace (fun l => l ++ [Opened (Path_str path)])
       (set_heap (fun h => alter (fun d => <["TEMPLATE" := VTemplateFn]> d)
                             (fresh (dom (heap st))) h)
          (set_heap (fun h => <[fresh (dom (heap st)) := list_to_map kwargs]> h) st)))
  = nested_start st kwargs path.
Proof.
  unfold nested_start, set_trace, set_heap. simpl.
  rewrite alter_insert_eq. now rewrite <- app_assoc.
Qed.

Lemma nested_unfold depth name kwargs st path f buf :
  find_template st (template_prefix_path st) name = Some path ->
  files st !! Path_str path = Some f ->
  interpreter st = Some buf ->
  _expand_template (S depth) name kwargs st
  = match exec (_expand_template depth) (fresh (dom (heap st)))
            (em_parse (read_text f)) (nested_start st kwargs path) with
    | (st', Return _) =>
        (set_trace (fun l => l ++ [Hook "afterInclude" ""]) st', Return tt)
    | (st', Raise e) =>
        (set_stderr (fun l => l ++ [class_name (exn_cls e) +:+ " in template '"
                                    +:+ Path_str path +:+ "': " +:+ exn_str e]) st',
         Raise e)
    end.
Proof.
  intros Hfind Hf Hbuf. simpl.
  rewrite bind_unfold. simpl. rewrite bind_unfold.
  unfold get_template_path. simpl.
  rewrite (ExpanderFacts.find_template_same_files st) by reflexivity. rewrite Hfind.
  rewrite bind_unfold. simpl. rewrite bind_unfold. simpl. rewrite Hbuf.
  rewrite bind_unfold. simpl. rewrite bind_unfold. rewrite bind_unfold.
  unfold open_read. simpl. rewrite Hf. rewrite bind_unfold.
  unfold interpreter_invoke. simpl. rewrite Hbuf. simpl.
  rewrite bind_unfold. unfold try_except, interpreter_string. simpl. rewrite Hbuf.
  rewrite nested_start_eq.
  pose proof (preserves_exec (sink_extends buf) _ (stable_sink_extends buf)
                (_expand_template depth) (fresh (dom (heap st)))
                (em_parse (read_text f)) I
                (fun n kw => preserves_expand_nested _ _ (stable_sink_extends buf) depth n kw)
                (nested_start st kwargs path)) as Hsink.
  destruct (exec _ _ _ (nested_start st kwargs path)) as [st' [[]|e]]; simpl in *.
  - destruct Hsink as [more Hmore].
    { exists EmptyString. now rewrite append_empty_r. }
    unfold interpreter_invoke. rewrite Hmore. reflexivity.
  - reflexivity.
Qed.

(** After an inclusion that returns, the including template goes on
    with what follows the inclusion. *)
Lemma exec_resumes call locals template_name kwargs rest st d st' :
  heap st !! locals = Some d ->
  d !! "TEMPLATE" = Some VTemplateFn ->
  call template_name kwargs st = (st', Return tt) ->
  exec call locals (Include template_name kwargs :: rest) st
  = exec call locals rest st'.
Proof.
  intros Hl Hd Hcall. simpl. rewrite bind_unfold. rewrite bind_unfold.
  unfold dict_get, gets. rewrite Hl. simpl. rewrite Hd. now rewrite Hcall.
Qed.

(** Plain text goes to the sink, piece after piece. *)
Lemma exec_text call locals texts :
  forall st buf, interpreter st = Some buf ->
    exec call locals (map Emit texts) st
    = (set_interpreter (fun _ => Some (buf +:+ joined texts)) st, Return tt).
Proof.
  induction texts as [|text texts IH]; intros st buf Hbuf.
  - simpl. rewrite append_empty_r. destruct st; simpl in *; subst; reflexivity.
  - simpl. rewrite bind_unfold. unfold sink_write. rewrite Hbuf.
    rewrite (IH _ (buf +:+ text)) by reflexivity.
    rewrite append_assoc. reflexivity.
Qed.

(** C4, as amended.  An invocation of the nested-inclusion callable
    resolves the named template against the search path as it stands and
    raises the lookup error when no directory holds it; it renders the
    text of the template it found with a new dict of its keyword
    arguments (plus the [TEMPLATE] entry) as locals, into the sink the
    enclosing expansion writes to, starting from the caller's search
    path; it then returns to its caller.  It neither pushes nor pops: the
    search path is the same after the invocation as before, as is the
    file system, and the sink has only grown.  What the rendering leaves
    in the sink and in the dicts is what the caller finds there: a nested
    template of plain text has appended exactly that text; and the
    including template goes on, behind the inclusion, from the state the
    callable returned in. *)
Theorem nested_inclusion depth template_name kwargs st :
  let r := _expand_template (S depth) template_name kwargs st in
  template_prefix_path r.1 = template_prefix_path st
  /\ files r.1 = files st /\ dirs r.1 = dirs st /\ clock r.1 = clock st
  /\ (find_template st (template_prefix_path st) template_name = None ->
      r.2 = Raise (template_not_found template_name)
      /\ interpreter r.1 = interpreter st)
  /\ (forall buf, interpreter st = Some buf ->
      exists more, interpreter r.1 = Some (buf +:+ more))
  /\ (forall path f buf,
        find_template st (template_prefix_path st) template_name = Some path ->
        files st !! Path_str path = Some f ->
        interpreter st = Some buf ->
        let start := nested_start st kwargs path in
        template_prefix_path start = template_prefix_path st
        /\ interpreter start = Some buf
        /\ heap start !! fresh (dom (heap st))
           = Some (<["TEMPLATE" := VTemplateFn]> (list_to_map kwargs))
        /\ forall st' res,
             exec (_expand_template depth) (fresh (dom (heap st)))
               (em_parse (read_text f)) start = (st', res) ->
             r.2 = res /\ template_prefix_path st' = template_prefix_path st
             /\ interpreter r.1 = interpreter st'
             /\ heap r.1 = heap st')
  /\ (forall path f buf texts,
        find_template st (template_prefix_path st) template_name = Some path ->
        files st !! Path_str path = Some f ->
        interpreter st = Some buf ->
        em_parse (read_text f) = map Emit texts ->
        r.2 = Return tt /\ interpreter r.1 = Some (buf +:+ joined texts))
  /\ (forall locals d rest,
        heap st !! locals = Some d ->
        d !! "TEMPLATE" = Some VTemplateFn ->
        r.2 = Return tt ->
        exec (_expand_template (S depth)) locals
          (Include template_name kwargs :: rest) st
        = exec (_expand_template (S depth)) locals rest r.1).
Proof.
  intros r.
  pose proof (preserves_expand_nested _ _
                (stable_frame (files st) (dirs st) (clock st) (template_prefix_path st))
                (S depth) template_name kwargs st) as Hframe.
  destruct Hframe as (Hf & Hd & Hc & Hp); [repeat split|].
  split; [exact Hp|]. split; [exact Hf|]. split; [exact Hd|]. split; [exact Hc|].
  split; [|split; [|split; [|split]]].
  - intros Hnone. subst r. simpl. rewrite bind_unfold. simpl. rewrite bind_unfold.
    unfold get_template_path. simpl.
    rewrite (ExpanderFacts.find_template_same_files st) by reflexivity.
    rewrite Hnone. simpl. split; reflexivity.
  - intros buf Hbuf.
    apply (preserves_expand_nested _ _ (stable_sink_extends buf)
             (S depth) template_name kwargs st).
    exists EmptyString. now rewrite append_empty_r.
  - intros path f buf Hfind Hfile Hbuf start.
    split; [reflexivity|]. split; [exact Hbuf|]. split.
    { subst start. unfold nested_start. simpl. apply lookup_insert_eq. }
    intros st' res Hexec. subst r.
    rewrite (nested_unfold depth template_name kwargs st path f buf Hfind Hfile Hbuf).
    fold start. rewrite Hexec.
    pose proof (preserves_exec _ _
                  (stable_frame (files st) (dirs st) (clock st) (template_prefix_path st))
                  (_expand_template depth) (fresh (dom (heap st)))
                  (em_parse (read_text f)) I
                  (fun n kw => preserves_expand_nested _ _
                     (stable_frame (files st) (dirs st) (clock st) (template_prefix_path st))
                     depth n kw)
                  start) as Hstart.
    rewrite Hexec in Hstart. simpl in Hstart.
    destruct Hstart as (_ & _ & _ & Hp'); [repeat split|].
    destruct res as [[]|e]; repeat split; try reflexivity; exact Hp'.
  - intros path f buf texts Hfind Hfile Hbuf Hprog. subst r.
    rewrite (nested_unfold depth template_name kwargs st path f buf Hfind Hfile Hbuf).
    rewrite Hprog.
    rewrite (exec_text (_expand_template depth) (fresh (dom (heap st))) texts
               (nested_start st kwargs path) buf) by exact Hbuf.
    split; reflexivity.
  - intros locals d rest Hl Hd' Hret.
    apply (exec_resumes (_expand_template (S depth)) locals template_name kwargs rest
             st d r.1 Hl Hd').
    subst r. destruct (_expand_template (S depth) template_name kwargs st)
      as [st' [[]|e]]; simpl in *; [reflexivity|discriminate].
Qed.

End Facts.

#[local] Existing Instance Demo.world.

(** C4, as stated, fails: the callable does not push the directory of the
    nested template.  [/a/sub/n.em], included as [sub/n.em] from an
    expansion rooted at [/a], includes [leaf.em], which lies next to it in
    [/a/sub].  With the directory of the nested template pushed, as the
    claim has it, [leaf.em] is found and "1leaf" rendered; the code fails to
    find it, and with it the whole expansion of [/a/top.em] fails. *)
Lemma nested_directory_not_pushed :
  path_exists Demo.inside_a "/a/sub/leaf.em" = true
  /\ (_expand_template 3 "sub/n.em" [("x", VStr "1")] Demo.inside_a).2
     = Raise (template_not_found "leaf.em")
  /\ (_expand_template_spec 3 "sub/n.em" [("x", VStr "1")] Demo.inside_a).2 = Return tt
  /\ interpreter (_expand_template_spec 3 "sub/n.em" [("x", VStr "1")] Demo.inside_a).1
     = Some "1leaf"
  /\ (expand_template 5 "top.em" 0 "/out/top.h" None (Some (Path_of "/a")) None
        Demo.start).2
     = Raise (template_not_found "leaf.em").
Proof. repeat split; vm_compute; reflexivity. Qed.

(** C4, as amended, at work: [/a/sub/leaf.em], included by the name
    [sub/leaf.em] from an expansion rooted at [/a], leaves its text in the
    sink of that expansion, and the search path as it was. *)
Example nested_inclusion_example :
  let r := _expand_template 3 "sub/leaf.em" [] Demo.inside_a in
  interpreter Demo.inside_a = Some ""
  /\ r.2 = Return tt
  /\ interpreter r.1 = Some "leaf"
  /\ template_prefix_path r.1 = [Path_of "/a"].
Proof. repeat split; vm_compute; reflexivity. Qed.

End NestedFacts.

(* ===================================================================== *)
(** ** The orchestrator                                                   *)
(* ===================================================================== *)

Module OrchestratorFacts.

Section Facts.

Context `{Collaborators}.

Lemma read_generator_arguments_returns input_file st st1 args :
  read_generator_arguments input_file st = (st1, Return args) ->
  st1 = set_trace (fun l => l ++ [Opened input_file]) st.
Proof.
  unfold read_generator_arguments. rewrite bind_unfold. unfold open_read.
  destruct (files st !! input_file); [|discriminate].
  destruct (json_manifest (read_text f)); [|discriminate].
  now intros [= <- _].
Qed.

(** The assertions of lines 79-81 stop at the first key that is missing. *)
Lemma check_templates_missing template_basepath keys st :
  (exists key, key ∈ keys
     /\ path_exists st (Path_str (Path_div template_basepath key)) = false) ->
  exists key, key ∈ keys
    /\ path_exists st (Path_str (Path_div template_basepath key)) = false
    /\ check_templates template_basepath keys st
       = (st, Raise (mkExn AssertionError ("Could not find template: " +:+ key))).
Proof.
  induction keys as [|k keys IH]; intros (key & Hin & Hmiss).
  - inversion Hin.
  - simpl. rewrite bind_unfold. unfold os_path_exists, gets.
    destruct (path_exists st (Path_str (Path_div template_basepath k))) eqn:Ek.
    + destruct IH as (key' & Hin' & Hmiss' & E).
      { apply elem_of_cons in Hin as [->|Hin]; [congruence|eauto]. }
      exists key'. split; [now right|]. split; [exact Hmiss'|].
      rewrite bind_unfold. simpl. exact E.
    + exists k. split; [left|]. split; [exact Ek|]. reflexivity.
Qed.

Lemma check_templates_present template_basepath keys st :
  (forall key, key ∈ keys ->
     path_exists st (Path_str (Path_div template_basepath key)) = true) ->
  check_templates template_basepath keys st = (st, Return tt).
Proof.
  induction keys as [|k keys IH]; intros Hall; [reflexivity|].
  simpl. rewrite bind_unfold. unfold os_path_exists, gets.
  rewrite Hall by left. rewrite bind_unfold. simpl. apply IH.
  intros key Hin. apply Hall. now right.
Qed.

(** C9. When the mapping has a key that does not exist under the
    manifest's [template_dir], [generate_files] raises the assertion error
    "Could not find template: ..." for a missing key, and has done nothing
    by then but open the generator-arguments file: no IDL file was handed
    to the parser, no side file was opened, nothing was written or
    printed.  When every key exists, the validation passes silently. *)
Theorem unknown_template_fails_fast depth generator_arguments_file mapping
    additional_context keep_case post_process_callback st st1 args dir :
  read_generator_arguments generator_arguments_file st = (st1, Return args) ->
  template_dir args = Some dir ->
  (exists key, key ∈ mapping.*1
     /\ path_exists st (Path_str (Path_div (Path_of dir) key)) = false) ->
  (exists key, key ∈ mapping.*1
     /\ path_exists st (Path_str (Path_div (Path_of dir) key)) = false
     /\ generate_files depth generator_arguments_file mapping additional_context
          keep_case post_process_callback st
        = (set_trace (fun l => l ++ [Opened generator_arguments_file]) st,
           Raise (mkExn AssertionError ("Could not find template: " +:+ key))))
  /\ (forall st0,
        (forall key, key ∈ mapping.*1 ->
           path_exists st0 (Path_str (Path_div (Path_of dir) key)) = true) ->
        check_templates (Path_of dir) (mapping.*1) st0 = (st0, Return tt)).
Proof.
  intros Hread Hdir Hmiss. split; [|apply check_templates_present].
  pose proof (read_generator_arguments_returns _ _ _ _ Hread) as ->.
  destruct (check_templates_missing (Path_of dir) (mapping.*1)
              (set_trace (fun l => l ++ [Opened generator_arguments_file]) st))
    as (key & Hin & Hk & E).
  { destruct Hmiss as (key & Hin & Hk). exists key. split; [exact Hin|exact Hk]. }
  exists key. split; [exact Hin|]. split; [exact Hk|].
  unfold generate_files. rewrite (bind_return _ _ _ _ _ Hread).
  rewrite Hdir. rewrite bind_unfold. simpl. rewrite bind_unfold. now rewrite E.
Qed.

Section IdlLoop.

Variable depth : nat.
Variable args : Manifest.
Variable mapping : list (string * string).
Variable additional_context : option (list (string * bool)).
Variable keep_case : bool.
Variable post_process_callback : option (string -> string).
Variable template_basepath : Path.
Variable latest_target_timestamp : option Z.
Variable type_description_files : gmap string string.
Variable ros_interface_files : gmap (string * string) Path.

Abbreviation prepare :=
  (prepare_idl_tuple keep_case type_description_files ros_interface_files).
Abbreviation each :=
  (generate_each depth args additional_context post_process_callback
     template_basepath latest_target_timestamp).
Abbreviation process :=
  (process_idl_tuple depth args mapping additional_context keep_case
     post_process_callback template_basepath latest_target_timestamp
     type_description_files ros_interface_files).
Abbreviation loop :=
  (process_idl_tuples depth args mapping additional_context keep_case
     post_process_callback template_basepath latest_target_timestamp
     type_description_files ros_interface_files).

Lemma loop_app before rest generated st :
  loop (before ++ rest) generated st
  = match loop before generated st with
    | (st1, Return generated1) => loop rest generated1 st1
    | (st1, Raise e) => (st1, Raise e)
    end.
Proof.
  revert generated st. induction before as [|t before IH]; intros generated st.
  - reflexivity.
  - simpl. rewrite !bind_unfold.
    destruct (process_idl_tuple _ _ _ _ _ _ _ _ _ _ t generated st) as [st1 [g1|e]].
    + apply IH.
    + reflexivity.
Qed.

(** Lines 99-114 go through for an entry that has a colon, whose side
    file, if side files are named, can be read as JSON, and whose
    relative path has a parent directory. *)
Lemma prepare_runs idl_tuple base relative st st1 info name parent more :
  split_last ":" idl_tuple = Some (base, relative) ->
  side_file_read type_description_files relative st st1 info ->
  rev (Path_parts (Path_of relative)) = name :: parent :: more ->
  prepare idl_tuple st
  = (st1, Return
            (mkPrepared (mkIdlLocator base relative) (Path_of relative) info
               (default (get_absolute_path (mkIdlLocator base relative))
                  (ros_interface_files !! (parent, Path_stem (Path_of relative))))
               (if keep_case then Path_stem (Path_of relative)
                else Naming.convert_camel_case_to_lower_case_underscore
                       (Path_stem (Path_of relative))))).
Proof.
  intros Hsplit Hside Hparts. unfold prepare_idl_tuple.
  rewrite Hsplit. rewrite bind_unfold. simpl. rewrite bind_unfold.
  destruct Hside as [(Hnone & -> & ->)|(Hsome & side & f & Hkey & Hfile & Hjson & ->)].
  - destruct (decide (type_description_files = ∅)); [|contradiction].
    simpl. rewrite bind_unfold. rewrite Hparts. reflexivity.
  - destruct (decide (type_description_files = ∅)); [contradiction|].
    rewrite bind_unfold. rewrite Hkey. simpl. rewrite bind_unfold.
    unfold open_read. rewrite Hfile. rewrite Hjson. simpl.
    rewrite bind_unfold. rewrite Hparts. reflexivity.
Qed.

(** C6, as amended.  What precedes the [try] of lines 115-135 fails
    without a diagnostic: an entry without a colon (lines 99-100), and,
    when side files are named, an entry for which none is named or whose
    side file cannot be opened or is no JSON (lines 105-108), and an entry
    whose relative path has no parent directory (line 111).  For an
    entry that got through these, every failure lies inside the [try]:
    when the IDL file cannot be opened, when the parser rejects it, and
    when building the context or expanding a template fails (a manifest
    without [output_dir] is one such case), the diagnostic "Error
    processing idl file: " with the absolute path of the file is printed
    last and the same exception raised again.  Either way the run is
    over: the outcome of the loop is that of the failing entry, whatever
    entries follow it. *)
Theorem idl_entry_failure :
  (forall idl_tuple generated st,
      split_last ":" idl_tuple = None ->
      process idl_tuple generated st = (st, Raise (mkExn AssertionError "")))
  /\ (forall idl_tuple base relative generated st,
        split_last ":" idl_tuple = Some (base, relative) ->
        type_description_files <> ∅ ->
        (type_description_files !! relative = None ->
         process idl_tuple generated st
         = (st, Raise (mkExn KeyError ("'" +:+ relative +:+ "'"))))
        /\ (forall side,
              type_description_files !! relative = Some side ->
              files st !! side = None ->
              process idl_tuple generated st = (st, Raise (missing st side)))
        /\ (forall side f,
              type_description_files !! relative = Some side ->
              files st !! side = Some f ->
              json_value (read_text f) = None ->
              process idl_tuple generated st
              = (set_trace (fun l => l ++ [Opened side]) st,
                 Raise (mkExn JSONDecodeError side))))
  /\ (forall idl_tuple base relative generated st st1 info,
        split_last ":" idl_tuple = Some (base, relative) ->
        side_file_read type_description_files relative st st1 info ->
        (forall name parent more,
           rev (Path_parts (Path_of relative)) <> name :: parent :: more) ->
        process idl_tuple generated st
        = (st1, Raise (mkExn IndexError "tuple index out of range")))
  /\ (forall idl_tuple base relative generated st st1 info name parent more,
        split_last ":" idl_tuple = Some (base, relative) ->
        side_file_read type_description_files relative st st1 info ->
        rev (Path_parts (Path_of relative)) = name :: parent :: more ->
        let absolute := Path_str (get_absolute_path (mkIdlLocator base relative)) in
        let logged :=
          set_stderr (fun l => l ++ ["Error processing idl file: " +:+ absolute]) in
        let parsing := set_trace (fun l => l ++ [Parsed absolute]) st1 in
        let parsed := set_trace (fun l => l ++ [Opened absolute]) parsing in
        (files st1 !! absolute = None ->
         process idl_tuple generated st = (logged parsing, Raise (missing st1 absolute)))
        /\ (forall f e,
              files st1 !! absolute = Some f ->
              idl_grammar (read_text f) = inl e ->
              process idl_tuple generated st = (logged parsed, Raise e))
        /\ (forall f content st2 e,
              files st1 !! absolute = Some f ->
              idl_grammar (read_text f) = inr content ->
              each (Path_of relative)
                (if keep_case then Path_stem (Path_of relative)
                 else Naming.convert_camel_case_to_lower_case_underscore
                        (Path_stem (Path_of relative)))
                content info
                (default (get_absolute_path (mkIdlLocator base relative))
                   (ros_interface_files !! (parent, Path_stem (Path_of relative))))
                mapping generated parsed = (st2, Raise e) ->
              process idl_tuple generated st = (logged st2, Raise e))
        /\ (forall f content,
              files st1 !! absolute = Some f ->
              idl_grammar (read_text f) = inr content ->
              output_dir args = None ->
              mapping <> [] ->
              process idl_tuple generated st
              = (logged parsed, Raise (mkExn KeyError "'output_dir'"))))
  /\ (forall before idl_tuple rest generated st st1 generated1 st2 e,
        loop before generated st = (st1, Return generated1) ->
        process idl_tuple generated1 st1 = (st2, Raise e) ->
        loop (before ++ idl_tuple :: rest) generated st = (st2, Raise e)).
Proof.
  assert (Hfail : forall idl_tuple generated st st1 e,
            prepare idl_tuple st = (st1, Raise e) ->
            process idl_tuple generated st = (st1, Raise e)).
  { intros idl_tuple generated st st1 e Hprep. unfold process_idl_tuple.
    now rewrite (bind_raise _ _ _ _ _ Hprep). }
  split; [|split; [|split; [|split]]].
  - intros idl_tuple generated st Hsplit. apply Hfail.
    unfold prepare_idl_tuple. rewrite Hsplit. reflexivity.
  - intros idl_tuple base relative generated st Hsplit Hsome.
    split; [|split].
    + intros Hkey. apply Hfail. unfold prepare_idl_tuple. rewrite Hsplit.
      rewrite bind_unfold. simpl. rewrite bind_unfold.
      destruct (decide (type_description_files = ∅)); [contradiction|].
      rewrite bind_unfold. rewrite Hkey. reflexivity.
    + intros side Hkey Hfile. apply Hfail. unfold prepare_idl_tuple. rewrite Hsplit.
      rewrite bind_unfold. simpl. rewrite bind_unfold.
      destruct (decide (type_description_files = ∅)); [contradiction|].
      rewrite bind_unfold. rewrite Hkey. simpl. rewrite bind_unfold.
      unfold open_read. rewrite Hfile. reflexivity.
    + intros side f Hkey Hfile Hjson. apply Hfail. unfold prepare_idl_tuple.
      rewrite Hsplit. rewrite bind_unfold. simpl. rewrite bind_unfold.
      destruct (decide (type_description_files = ∅)); [contradiction|].
      rewrite bind_unfold. rewrite Hkey. simpl. rewrite bind_unfold.
      unfold open_read. rewrite Hfile, Hjson. reflexivity.
  - intros idl_tuple base relative generated st st1 info Hsplit Hside Hparts.
    apply Hfail. unfold prepare_idl_tuple. rewrite Hsplit.
    rewrite bind_unfold. simpl. rewrite bind_unfold.
    assert (Hidx : forall s,
      (match rev (Path_parts (Path_of relative)) with
       | _ :: parent_name :: _ => mret parent_name
       | _ => raise (mkExn IndexError "tuple index out of range")
       end : M string) s = (s, Raise (mkExn IndexError "tuple index out of range"))).
    { intros s. destruct (rev (Path_parts (Path_of relative))) as [|name [|parent more]] eqn:E;
        [reflexivity|reflexivity|]. exfalso. exact (Hparts _ _ _ eq_refl). }
    destruct Hside as [(Hnone & -> & ->)|(Hsome & side & f & Hkey & Hfile & Hjson & ->)].
    + destruct (decide (type_description_files = ∅)); [|contradiction].
      simpl. rewrite bind_unfold. now rewrite Hidx.
    + destruct (decide (type_description_files = ∅)); [contradiction|].
      rewrite bind_unfold. rewrite Hkey. simpl. rewrite bind_unfold.
      unfold open_read. rewrite Hfile, Hjson. simpl.
      rewrite bind_unfold. now rewrite Hidx.
  - intros idl_tuple base relative generated st st1 info name parent more
      Hsplit Hside Hparts absolute logged parsing parsed.
    pose proof (prepare_runs idl_tuple base relative st st1 info name parent more
                  Hsplit Hside Hparts) as Hprep.
    assert (Hgo : forall f content,
              files st1 !! absolute = Some f ->
              idl_grammar (read_text f) = inr content ->
              process idl_tuple generated st
              = try_except
                  (each (Path_of relative)
                     (if keep_case then Path_stem (Path_of relative)
                      else Naming.convert_camel_case_to_lower_case_underscore
                             (Path_stem (Path_of relative)))
                     content info
                     (default (get_absolute_path (mkIdlLocator base relative))
                        (ros_interface_files !! (parent, Path_stem (Path_of relative))))
                     mapping generated)
                  (fun e => print_stderr ("Error processing idl file: " +:+ absolute) ;;
                            raise e)
                  parsed).
    { intros f content Hfile Hgram. unfold process_idl_tuple.
      rewrite (bind_return _ _ _ _ _ Hprep).
      unfold generate_idl, try_except, generate_idl_try. simpl.
      rewrite bind_unfold. unfold parse_idl_file. simpl.
      rewrite bind_unfold. simpl. rewrite bind_unfold. unfold open_read. simpl.
      fold absolute. rewrite Hfile, Hgram. simpl. reflexivity. }
    split; [|split; [|split]].
    + intros Hfile. unfold process_idl_tuple.
      rewrite (bind_return _ _ _ _ _ Hprep).
      unfold generate_idl, try_except, generate_idl_try. simpl.
      rewrite bind_unfold. unfold parse_idl_file. simpl.
      rewrite bind_unfold. simpl. rewrite bind_unfold. unfold open_read. simpl.
      fold absolute. rewrite Hfile. reflexivity.
    + intros f e Hfile Hgram. unfold process_idl_tuple.
      rewrite (bind_return _ _ _ _ _ Hprep).
      unfold generate_idl, try_except, generate_idl_try. simpl.
      rewrite bind_unfold. unfold parse_idl_file. simpl.
      rewrite bind_unfold. simpl. rewrite bind_unfold. unfold open_read. simpl.
      fold absolute. rewrite Hfile, Hgram. reflexivity.
    + intros f content st2 e Hfile Hgram Heach.
      rewrite (Hgo f content Hfile Hgram). unfold try_except. rewrite Heach.
      reflexivity.
    + intros f content Hfile Hgram Hout Hmap.
      rewrite (Hgo f content Hfile Hgram). unfold try_except.
      destruct mapping as [|[template_file generated_filename] items]; [contradiction|].
      simpl. rewrite bind_unfold. unfold generate_one. rewrite Hout.
      reflexivity.
  - intros before idl_tuple rest generated st st1 generated1 st2 e Hloop Hproc.
    rewrite loop_app, Hloop. simpl.
    now rewrite (bind_raise _ _ _ _ _ Hproc).
Qed.

End IdlLoop.

End Facts.

#[local] Existing Instance Demo.world.

(** C6, as stated, fails for an exception raised while the side file of
    an entry is resolved: the manifest names side files but none for
    [msg/Point.idl], the [KeyError] ends the run, and nothing was printed. *)
Lemma side_file_failure_not_logged :
  let r := generate_files 5 "/args-side.json" [("msg__struct.h.em", "%s.h")]
             None false None Demo.start in
  r.2 = Raise (mkExn KeyError "'msg/Point.idl'")
  /\ stderr r.1 = []
  /\ trace r.1 = [Opened "/args-side.json"].
Proof. repeat split; vm_compute; reflexivity. Qed.

End OrchestratorFacts.

(* ===================================================================== *)
(** ** How a call of the expander ends                                   *)
(* ===================================================================== *)

(* ===================================================================== *)
(** ** Further properties of the expander                                 *)
(* ===================================================================== *)

(** A computation that returns went through both halves of a bind. *)
Lemma bind_returns {A B} (m : M A) (f : A -> M B) st st' b :
  (m ≫= f) st = (st', Return b) ->
  exists st1 a, m st = (st1, Return a) /\ f a st1 = (st', Return b).
Proof.
  rewrite bind_unfold. destruct (m st) as [st1 [a|e]]; [eauto|discriminate].
Qed.

Module ExpanderOutcomes.

Section Facts.

Context `{Collaborators}.

(** How a call of [expand_template] can end, by where it got to. *)
Lemma expand_cases depth template_name data output_file minimum
    template_basepath post_process_callback st :
  (exists e st1,
     expand_template_enter template_name data template_basepath st = (st1, Raise e)
     /\ expand_template depth template_name data output_file minimum
          template_basepath post_process_callback st = (st1, Raise e))
  \/ (exists e, rendering_raises depth template_name data template_basepath st e)
  \/ (exists content,
        renders depth template_name data template_basepath post_process_callback
          st content).
Proof.
  destruct (expand_template_enter template_name data template_basepath st)
    as [st1 [[[name path] copy]|e]] eqn:Henter.
  - destruct (expand_template_try depth name path copy st1) as [st2 [[]|e]] eqn:Htry.
    + right. right. eexists. exists st1, name, path, copy, st2. eauto.
    + right. left. exists e, st1, name, path, copy, st2. eauto.
  - left. exists e, st1. split; [reflexivity|].
    unfold expand_template. now rewrite (bind_raise _ _ _ _ _ Henter).
Qed.

(** The write decision, when it returns, has found the output unchanged
    and touched nothing, or has written the content; the output file is
    there. *)
Lemma write_returns output_file minimum content st st' :
  expand_template_write output_file minimum content st = (st', Return tt) ->
  is_Some (files st' !! output_file)
  /\ ((files st' = files st /\ clock st' = clock st
       /\ unchanged_output st output_file minimum content)
      \/ (files st' = <[output_file := mkFile content (clock st)]> (files st)
          /\ ~ unchanged_output st output_file minimum content)).
Proof.
  intros Hret.
  destruct (ExpanderFacts.unchanged_output_dec st output_file minimum content)
    as [Hyes|Hno].
  - destruct (ExpanderFacts.write_skips _ _ _ _ Hyes) as (st'' & E & Hf & _ & Hc & _).
    rewrite E in Hret. inversion Hret; subst st''. split.
    + destruct Hyes as (f & Ef & _). rewrite Hf. eauto.
    + left. auto.
  - destruct (under_file st output_file) eqn:Hun.
    { destruct (ExpanderFacts.write_refused _ _ _ _ Hno Hun) as (st'' & e & E & _).
      rewrite E in Hret. discriminate. }
    destruct (path_exists st output_file) eqn:Hex.
    + destruct (ExpanderFacts.write_writes _ _ _ _ Hno Hun (or_introl Hex))
        as (st'' & E & Hf & _).
      rewrite E in Hret. inversion Hret; subst st''. split.
      * rewrite Hf, lookup_insert_eq. eauto.
      * right. auto.
    + destruct (String.eqb (os_path_dirname output_file) "") eqn:Edir.
      * apply String.eqb_eq in Edir.
        rewrite (ExpanderFacts.write_bare_name _ _ _ _ Hex Edir) in Hret. discriminate.
      * apply String.eqb_neq in Edir.
        destruct (ExpanderFacts.write_writes _ _ _ _ Hno Hun (or_intror Edir))
          as (st'' & E & Hf & _).
        rewrite E in Hret. inversion Hret; subst st''. split.
        -- rewrite Hf, lookup_insert_eq. eauto.
        -- right. auto.
Qed.

(** A call that returns got through rendering and through the write
    decision. *)
Lemma returns_through_write depth template_name data output_file minimum
    template_basepath post_process_callback st st' :
  expand_template depth template_name data output_file minimum
    template_basepath post_process_callback st = (st', Return tt) ->
  exists content st2,
    renders depth template_name data template_basepath post_process_callback
      st content
    /\ expand_template_write output_file minimum content st2 = (st', Return tt)
    /\ files st2 = files st /\ dirs st2 = dirs st /\ clock st2 = clock st
    /\ template_prefix_path st2 = template_prefix_path st.
Proof.
  intros Hret.
  destruct (expand_cases depth template_name data output_file minimum
              template_basepath post_process_callback st)
    as [(e & st1 & _ & E)|[(e & Hr)|(content & Hr)]].
  - rewrite E in Hret. discriminate.
  - destruct Hr as (st1 & name & path & copy & st2 & Henter & Htry).
    unfold expand_template in Hret. rewrite (bind_return _ _ _ _ _ Henter) in Hret.
    apply bind_returns in Hret as (st3 & [] & Hfin & _).
    unfold try_finally, try_except in Hfin. rewrite Htry in Hfin.
    destruct (ExpanderFacts.except_clause name output_file e st2) as (st4 & Hexc & _).
    rewrite Hexc in Hfin.
    destruct (prefix_path_pop st4) as [st5 [[]|e']]; discriminate.
  - destruct (ExpanderFacts.renders_then_writes depth template_name data output_file
                minimum template_basepath post_process_callback st content Hr)
      as (st2 & E & Hf & Hd & Hc & Hp).
    exists content, st2. split; [exact Hr|]. split; [now rewrite <- E|].
    repeat split; assumption.
Qed.

(** A call of [expand_template] that returns has rendered some content,
    and has either found the output file unchanged (there, newer than the
    minimum, and reading as that content in text mode) and left every file
    as it was, or written exactly that content to the output path and
    touched no other file.  Either way the output file is there
    afterwards, and the search path is as it was before the call. *)
Theorem returns_with_output depth template_name data output_file minimum
    template_basepath post_process_callback st st' :
  expand_template depth template_name data output_file minimum
    template_basepath post_process_callback st = (st', Return tt) ->
  exists content,
    renders depth template_name data template_basepath post_process_callback
      st content
    /\ ((files st' = files st /\ clock st' = clock st
         /\ unchanged_output st output_file minimum content)
        \/ (files st' = <[output_file := mkFile content (clock st)]> (files st)
            /\ ~ unchanged_output st output_file minimum content))
    /\ is_Some (files st' !! output_file)
    /\ template_prefix_path st' = template_prefix_path st.
Proof.
  intros Hret.
  destruct (returns_through_write _ _ _ _ _ _ _ _ _ Hret)
    as (content & st2 & Hr & Hw & Hf & _ & Hc & Hp).
  destruct (write_returns _ _ _ _ _ Hw) as (Hout & Hfiles).
  exists content. split; [exact Hr|]. split; [|split; [exact Hout|]].
  - destruct Hfiles as [(Hf' & Hc' & Hyes)|(Hf' & Hno)].
    + left. split; [congruence|]. split; [congruence|].
      now apply (ExpanderFacts.unchanged_output_files st st2).
    + right. split; [now rewrite Hf', Hf, Hc|].
      intros Hyes. apply Hno. now apply (ExpanderFacts.unchanged_output_files st st2).
  - pose proof (ExpanderFacts.write_frame output_file minimum content st2) as Hfr.
    rewrite Hw in Hfr. destruct Hfr as (Hp' & _). simpl in Hp'. congruence.
Qed.

(** For an output path that is a bare file name and does not exist yet,
    a call that gets through rendering ends in the [FileNotFoundError] of
    [os.makedirs('')]; no file is written. *)
Theorem bare_name_raises depth template_name data output_file minimum
    template_basepath post_process_callback st content :
  renders depth template_name data template_basepath post_process_callback st content ->
  path_exists st output_file = false ->
  os_path_dirname output_file = EmptyString ->
  exists st',
    expand_template depth template_name data output_file minimum
      template_basepath post_process_callback st
    = (st', Raise (mkExn FileNotFoundError EmptyString))
    /\ files st' = files st /\ dirs st' = dirs st
    /\ template_prefix_path st' = template_prefix_path st.
Proof.
  intros Hr Hex Hdir.
  destruct (ExpanderFacts.renders_then_writes depth template_name data output_file
              minimum template_basepath post_process_callback st content Hr)
    as (st2 & E & Hf & Hd & Hc & Hp).
  exists st2. rewrite E. split; [|auto].
  apply ExpanderFacts.write_bare_name; [|exact Hdir].
  unfold path_exists in *. now rewrite Hf.
Qed.

End Facts.

End ExpanderOutcomes.

(* ===================================================================== *)
(** ** Inclusion cycles                                                  *)
(* ===================================================================== *)

Module CycleFacts.

Section Facts.

Context `{Collaborators}.

Lemma enter_found template_name data template_basepath st st1 name path copy :
  expand_template_enter template_name data template_basepath st
    = (st1, Return (name, path, copy)) ->
  find_template st1 (template_prefix_path st1) name = Some path.
Proof.
  unfold expand_template_enter.
  destruct (resolve_template template_name template_basepath) as [b n]. simpl.
  rewrite bind_unfold. simpl. rewrite bind_unfold. unfold get_template_path. simpl.
  destruct (find_template _ _ n) as [p|] eqn:Hfind; [|discriminate].
  rewrite bind_unfold. simpl. rewrite bind_unfold. unfold dict_copy. simpl.
  destruct (heap st !! data) as [d|] eqn:Hd; [|discriminate].
  simpl. intros E. inversion E; subst. simpl. rewrite <- Hfind.
  apply ExpanderFacts.find_template_same_files. reflexivity.
Qed.

(** Plain text in front of the rest of a template only fills the sink. *)
Lemma exec_text_prefix call locals texts items :
  forall st, is_Some (interpreter st) ->
    exists st',
      exec call locals (map Emit texts ++ items) st = exec call locals items st'
      /\ files st' = files st /\ heap st' = heap st
      /\ template_prefix_path st' = template_prefix_path st
      /\ is_Some (interpreter st').
Proof.
  induction texts as [|text texts IH]; intros st [buf Hbuf].
  - exists st. repeat split; eauto.
  - destruct (IH (set_interpreter (fun _ => Some (buf +:+ text)) st))
      as (st' & E & Hf & Hh & Hp & Hi); [simpl; eauto|].
    exists st'. split; [|auto].
    simpl. rewrite bind_unfold. unfold sink_write. rewrite Hbuf. exact E.
Qed.

(** A template which, after plain text, includes itself never gets
    through: whatever depth the call stack allows, the inclusion ends in
    [RecursionError]. *)
Lemma self_inclusion_overflows name path f texts kwargs rest :
  em_parse (read_text f) = map Emit texts ++ Include name kwargs :: rest ->
  forall depth kwargs0 st,
    find_template st (template_prefix_path st) name = Some path ->
    files st !! Path_str path = Some f ->
    is_Some (interpreter st) ->
    (_expand_template depth name kwargs0 st).2 = Raise recursion_error.
Proof.
  intros Hprog. induction depth as [|depth IH]; intros kwargs0 st Hfind Hfile [buf Hbuf];
    [reflexivity|].
  rewrite (NestedFacts.nested_unfold depth name kwargs0 st path f buf Hfind Hfile Hbuf).
  rewrite Hprog.
  destruct (exec_text_prefix (_expand_template depth) (fresh (dom (heap st))) texts
              (Include name kwargs :: rest) (nested_start st kwargs0 path))
    as (st' & -> & Hf & Hh & Hp & Hi); [simpl; eauto|].
  assert (Hcall : (_expand_template depth name kwargs st').2 = Raise recursion_error).
  { apply IH; [|rewrite Hf; exact Hfile|exact Hi].
    rewrite Hp. simpl. rewrite <- Hfind.
    apply ExpanderFacts.find_template_same_files. rewrite Hf. reflexivity. }
  simpl. rewrite bind_unfold. rewrite bind_unfold. unfold dict_get, gets.
  rewrite Hh. simpl. rewrite lookup_insert_eq. simpl. rewrite lookup_insert_eq.
  destruct (_expand_template depth name kwargs st') as [st2 [[]|e]];
    simpl in Hcall; [discriminate|]. simpl. exact Hcall.
Qed.

(** [expand_template] has no guard against a template that includes
    itself: whatever depth the call stack allows, the call ends in
    [RecursionError], the output file is not there afterwards, and the
    search path is what it was. *)
Theorem inclusion_cycle_overflows depth template_name data output_file minimum
    template_basepath post_process_callback st st1 name path copy f texts kwargs rest :
  expand_template_enter template_name data template_basepath st
    = (st1, Return (name, path, copy)) ->
  files st !! Path_str path = Some f ->
  em_parse (read_text f) = map Emit texts ++ Include name kwargs :: rest ->
  exists st',
    expand_template depth template_name data output_file minimum
      template_basepath post_process_callback st = (st', Raise recursion_error)
    /\ files st' = delete output_file (files st)
    /\ template_prefix_path st' = template_prefix_path st.
Proof.
  intros Henter Hfile Hprog.
  pose proof (enter_found _ _ _ _ _ _ _ _ Henter) as Hfind.
  destruct (ExpanderFacts.enter_returns _ _ _ _ _ _ _ _ Henter)
    as (_ & Hf1 & _ & _ & Hp1 & _ & _ & Hi1 & d & _ & Hcopy & Hh1).
  assert (Htry : exists st2,
            expand_template_try depth name path copy st1 = (st2, Raise recursion_error)).
  { unfold expand_template_try. rewrite bind_unfold. rewrite bind_unfold.
    unfold open_read. rewrite Hf1, Hfile. rewrite bind_unfold.
    unfold interpreter_invoke at 1. simpl. rewrite Hi1. simpl.
    rewrite bind_unfold. unfold interpreter_string at 1. simpl. rewrite Hi1.
    rewrite Hprog.
    destruct (exec_text_prefix (_expand_template depth) copy texts
                (Include name kwargs :: rest)
                (set_trace (fun l => l ++ [Hook "beforeFile" name])
                   (set_trace (fun l => l ++ [Opened (Path_str path)]) st1)))
      as (s & -> & Hf & Hh & Hp & Hi); [simpl; eauto|].
    assert (Hcall : (_expand_template depth name kwargs s).2 = Raise recursion_error).
    { apply (self_inclusion_overflows name path f texts kwargs rest Hprog);
        [|rewrite Hf; simpl; rewrite Hf1; exact Hfile|exact Hi].
      rewrite Hp. simpl. rewrite <- Hfind.
      apply ExpanderFacts.find_template_same_files. rewrite Hf. reflexivity. }
    simpl. rewrite bind_unfold. rewrite bind_unfold. unfold dict_get, gets.
    rewrite Hh. simpl. rewrite Hh1, lookup_insert_eq. simpl. rewrite lookup_insert_eq.
    destruct (_expand_template depth name kwargs s) as [s2 [[]|e]];
      simpl in Hcall; [discriminate|]. simpl. inversion Hcall. eauto. }
  destruct Htry as [st2 Htry].
  pose proof (ExpanderFacts.try_frame depth name path copy st1) as Hframe.
  rewrite Htry in Hframe. simpl in Hframe. destruct Hframe as (Hf2 & _ & _ & Hp2).
  destruct (ExpanderFacts.except_clause name output_file recursion_error st2)
    as (st3 & Hexc & Hf3 & _ & _ & _ & Hp3 & _).
  exists (set_template_prefix_path (fun l => removelast l) st3).
  split; [|split].
  - unfold expand_template. rewrite (bind_return _ _ _ _ _ Henter).
    rewrite bind_unfold. unfold try_finally, try_except. rewrite Htry, Hexc.
    rewrite (ExpanderFacts.pop_after_push st3 (template_prefix_path st)
               (resolve_template template_name template_basepath).1)
      by (rewrite Hp3, Hp2, Hp1; reflexivity).
    reflexivity.
  - simpl. now rewrite Hf3, Hf2, Hf1.
  - simpl. rewrite Hp3, Hp2, Hp1. apply ExpanderFacts.removelast_snoc.
Qed.

End Facts.

End CycleFacts.

(* ===================================================================== *)
(** ** The nested call on its own                                        *)
(* ===================================================================== *)

Module NestedOutcomes.

Section Facts.

Context `{Collaborators}.

(** [_expand_template] called while no interpreter is installed (before
    any call of [expand_template]) raises a [RuntimeError]: that of the
    lookup when the template is not found on the search path, its own
    otherwise.  No file is opened and nothing is printed. *)
Theorem nested_needs_interpreter depth template_name kwargs st :
  interpreter st = None ->
  exists st',
    _expand_template (S depth) template_name kwargs st
    = (st', Raise
              match find_template st (template_prefix_path st) template_name with
              | Some _ =>
                  mkExn RuntimeError "_expand_template called before expand_template"
              | None => template_not_found template_name
              end)
    /\ files st' = files st /\ trace st' = trace st /\ stderr st' = stderr st
    /\ template_prefix_path st' = template_prefix_path st.
Proof.
  intros Hi. simpl. rewrite bind_unfold. unfold dict_new at 1.
  rewrite bind_unfold. unfold get_template_path.
  rewrite (ExpanderFacts.find_template_same_files st
             (set_heap (fun h => <[fresh (dom (heap st)) := list_to_map kwargs]> h) st)
             (template_prefix_path
                (set_heap (fun h => <[fresh (dom (heap st)) := list_to_map kwargs]> h) st))
             template_name) by reflexivity.
  simpl.
  destruct (find_template st (template_prefix_path st) template_name) as [path|].
  - rewrite bind_unfold. simpl. rewrite bind_unfold. simpl. rewrite Hi.
    eexists. split; [reflexivity|]. repeat split; reflexivity.
  - eexists. split; [reflexivity|]. repeat split; reflexivity.
Qed.

End Facts.

End NestedOutcomes.

(* ===================================================================== *)
(** ** Runs of the orchestrator that return                              *)
(* ===================================================================== *)

Module OrchestratorRuns.

Lemma files_kept_refl st : files_kept st st.
Proof. split; auto. Qed.

Lemma files_kept_trans st1 st2 st3 :
  files_kept st1 st2 -> files_kept st2 st3 -> files_kept st1 st3.
Proof. intros [H1 E1] [H2 E2]. split; [auto|congruence]. Qed.

Lemma files_kept_same st st' :
  files st' = files st -> template_prefix_path st' = template_prefix_path st ->
  files_kept st st'.
Proof. intros Hf Hp. split; [now rewrite Hf|exact Hp]. Qed.

Lemma getitem_returns {A} key (o : option A) st st' a :
  getitem key o st = (st', Return a) -> o = Some a /\ st' = st.
Proof. destruct o; simpl; intros E; inversion E; auto. Qed.

Lemma lift_sum_returns {A} (r : exn + A) st st' a :
  lift_sum r st = (st', Return a) -> r = inr a /\ st' = st.
Proof. destruct r; simpl; intros E; inversion E; auto. Qed.

Lemma open_read_returns p st st' text :
  open_read p st = (st', Return text) ->
  st' = set_trace (fun l => l ++ [Opened p]) st
  /\ exists f, files st !! p = Some f /\ read_text f = text.
Proof.
  unfold open_read. destruct (files st !! p) as [f|]; intros E; inversion E; eauto.
Qed.

Section Facts.

Context `{Collaborators}.

Section IdlLoop.

Variable depth : nat.
Variable args : Manifest.
Variable mapping : list (string * string).
Variable additional_context : option (list (string * bool)).
Variable keep_case : bool.
Variable post_process_callback : option (string -> string).
Variable template_basepath : Path.
Variable latest_target_timestamp : option Z.
Variable type_description_files : gmap string string.
Variable ros_interface_files : gmap (string * string) Path.

Abbreviation prepare :=
  (prepare_idl_tuple keep_case type_description_files ros_interface_files).
Abbreviation one :=
  (generate_one depth args additional_context post_process_callback
     template_basepath latest_target_timestamp).
Abbreviation each :=
  (generate_each depth args additional_context post_process_callback
     template_basepath latest_target_timestamp).
Abbreviation process :=
  (process_idl_tuple depth args mapping additional_context keep_case
     post_process_callback template_basepath latest_target_timestamp
     type_description_files ros_interface_files).
Abbreviation loop :=
  (process_idl_tuples depth args mapping additional_context keep_case
     post_process_callback template_basepath latest_target_timestamp
     type_description_files ros_interface_files).

(** What one returning turn for one template has done. *)
Lemma one_returns idl_rel_path idl_stem content info source generated item st st' generated' :
  one idl_rel_path idl_stem content info source generated item st
    = (st', Return generated') ->
  exists out_dir name,
    output_dir args = Some out_dir
    /\ percent_format item.2 idl_stem = inr name
    /\ generated'
       = generated ++ [os_path_join (os_path_join out_dir
                                       (Path_str (Path_parent idl_rel_path))) name]
    /\ files_kept st st'
    /\ is_Some (files st' !! os_path_join (os_path_join out_dir
                                             (Path_str (Path_parent idl_rel_path))) name).
Proof.
  unfold generate_one. destruct item as [template_file generated_filename]. simpl.
  intros E.
  apply bind_returns in E as (s1 & out_dir & E1 & E).
  apply getitem_returns in E1 as [Hout ->].
  apply bind_returns in E as (s2 & name & E2 & E).
  apply lift_sum_returns in E2 as [Hname ->].
  apply bind_returns in E as (s3 & pkg & E3 & E).
  apply getitem_returns in E3 as [_ ->].
  apply bind_returns in E as (s4 & data & E4 & E).
  apply bind_returns in E as (s5 & [] & E5 & E).
  apply bind_returns in E as (s6 & [] & E6 & E).
  inversion E; subst. clear E.
  assert (Hs5 : files s5 = files st /\ template_prefix_path s5 = template_prefix_path st).
  { unfold dict_new in E4. inversion E4; subst. clear E4.
    destruct additional_context; simpl in E5; inversion E5; subst; split; reflexivity. }
  destruct Hs5 as [Hf5 Hp5].
  destruct (ExpanderOutcomes.returns_through_write _ _ _ _ _ _ _ _ _ E6)
    as (text & s7 & _ & Hw & Hf7 & _ & _ & Hp7).
  destruct (ExpanderOutcomes.write_returns _ _ _ _ _ Hw) as (Hfile & Hfiles).
  pose proof (ExpanderFacts.write_frame
                (os_path_join (os_path_join out_dir (Path_str (Path_parent idl_rel_path)))
                   name) latest_target_timestamp text s7) as Hfr.
  rewrite Hw in Hfr. simpl in Hfr. destruct Hfr as (Hp' & _).
  exists out_dir, name. split; [exact Hout|]. split; [exact Hname|].
  split; [reflexivity|]. split; [|exact Hfile].
  split; [|congruence].
  intros p Hp. destruct Hfiles as [(-> & _)|(-> & _)].
  - now rewrite Hf7, Hf5.
  - destruct (decide (os_path_join (os_path_join out_dir
                        (Path_str (Path_parent idl_rel_path))) name = p)) as [->|Hne].
    + rewrite lookup_insert_eq. eauto.
    + rewrite lookup_insert_ne by exact Hne. now rewrite Hf7, Hf5.
Qed.

Lemma each_returns idl_rel_path idl_stem content info source items :
  forall generated st st' generated',
    each idl_rel_path idl_stem content info source items generated st
      = (st', Return generated') ->
    exists outs,
      generated' = generated ++ outs
      /\ Forall2 (fun item out =>
           exists out_dir name,
             output_dir args = Some out_dir
             /\ percent_format item.2 idl_stem = inr name
             /\ out = os_path_join (os_path_join out_dir
                                      (Path_str (Path_parent idl_rel_path))) name)
           items outs
      /\ files_kept st st'
      /\ Forall (fun out => is_Some (files st' !! out)) outs.
Proof.
  induction items as [|item items IH]; intros generated st st' generated' E.
  - simpl in E. inversion E; subst. exists []. rewrite app_nil_r.
    repeat split; auto using files_kept_refl.
  - simpl in E. apply bind_returns in E as (s1 & g1 & E1 & E).
    apply one_returns in E1 as (out_dir & name & Hout & Hname & -> & Hk1 & Hex1).
    apply IH in E as (outs & -> & HF & Hk & Hall).
    eexists (_ :: outs). split; [now rewrite <- app_assoc|].
    split; [constructor; eauto|].
    split; [eapply files_kept_trans; eauto|].
    constructor; [|exact Hall]. now apply (proj1 Hk).
Qed.

(** What a returning preparation of a tuple has found. *)
Lemma prepare_returns idl_tuple st st' p :
  prepare idl_tuple st = (st', Return p) ->
  exists base relative,
    split_last ":" idl_tuple = Some (base, relative)
    /\ idl_rel_path p = Path_of relative
    /\ idl_stem p
       = (if keep_case then Path_stem (Path_of relative)
          else Naming.convert_camel_case_to_lower_case_underscore
                 (Path_stem (Path_of relative)))
    /\ files st' = files st
    /\ template_prefix_path st' = template_prefix_path st.
Proof.
  unfold prepare_idl_tuple. intros E.
  apply bind_returns in E as (s1 & [base relative] & E1 & E).
  destruct (split_last ":" idl_tuple) as [parts|] eqn:Hsplit; [|discriminate].
  inversion E1; subst. clear E1. simpl in E.
  apply bind_returns in E as (s2 & info & E2 & E).
  apply bind_returns in E as (s3 & parent_name & E3 & E).
  assert (Hs3 : s3 = s2).
  { destruct (rev (Path_parts (Path_of relative))) as [|? [|? ?]];
      inversion E3; reflexivity. }
  subst s3. clear E3.
  inversion E; subst. clear E. simpl.
  exists base, relative. split; [reflexivity|]. split; [reflexivity|].
  split; [reflexivity|].
  destruct (decide (type_description_files = ∅)).
  - inversion E2; subst. split; reflexivity.
  - apply bind_returns in E2 as (s4 & type_hash_file & E4 & E2).
    destruct (type_description_files !! relative); [|discriminate].
    inversion E4; subst. clear E4.
    apply bind_returns in E2 as (s5 & text & E5 & E2).
    apply open_read_returns in E5 as [-> _].
    destruct (json_value text); inversion E2; subst. split; reflexivity.
Qed.

Lemma process_returns idl_tuple generated st st' generated' :
  process idl_tuple generated st = (st', Return generated') ->
  exists outs,
    generated' = generated ++ outs
    /\ map Some outs = map (planned_output args keep_case idl_tuple) mapping
    /\ files_kept st st'
    /\ Forall (fun out => is_Some (files st' !! out)) outs.
Proof.
  unfold process_idl_tuple. intros E.
  apply bind_returns in E as (s1 & p & E1 & E).
  apply prepare_returns in E1 as (base & relative & Hsplit & Hrel & Hstem & Hf1 & Hp1).
  unfold generate_idl, try_except in E.
  destruct (generate_idl_try depth args mapping additional_context post_process_callback
              template_basepath latest_target_timestamp p generated s1)
    as [s2 [g2|e]] eqn:Etry; [|discriminate].
  inversion E; subst. clear E.
  unfold generate_idl_try in Etry.
  apply bind_returns in Etry as (s3 & content & E3 & Etry).
  assert (Hs3 : files s3 = files s1 /\ template_prefix_path s3 = template_prefix_path s1).
  { unfold parse_idl_file in E3.
    apply bind_returns in E3 as (s4 & [] & E4 & E3).
    inversion E4; subst. clear E4.
    apply bind_returns in E3 as (s5 & text & E5 & E3).
    apply open_read_returns in E5 as [-> _].
    apply lift_sum_returns in E3 as [_ ->]. split; reflexivity. }
  destruct Hs3 as [Hf3 Hp3].
  apply each_returns in Etry as (outs & -> & HF & Hk & Hall).
  exists outs. split; [reflexivity|]. split; [|split; [|exact Hall]].
  - clear Hk Hall. induction HF as [|item out items outs' (out_dir & name & Ho & Hn & ->) HF IH];
      [reflexivity|].
    simpl. rewrite IH. f_equal. unfold planned_output.
    rewrite Hsplit, Ho. simpl. rewrite <- Hstem, Hn, Hrel. reflexivity.
  - eapply files_kept_trans; [|exact Hk].
    apply files_kept_same; congruence.
Qed.

Lemma loop_returns tuples :
  forall generated st st' generated',
    loop tuples generated st = (st', Return generated') ->
    exists outs,
      generated' = generated ++ outs
      /\ map Some outs = planned_outputs args keep_case mapping tuples
      /\ files_kept st st'
      /\ Forall (fun out => is_Some (files st' !! out)) outs.
Proof.
  induction tuples as [|t tuples IH]; intros generated st st' generated' E.
  - simpl in E. inversion E; subst. exists []. rewrite app_nil_r.
    repeat split; auto using files_kept_refl.
  - simpl in E. apply bind_returns in E as (s1 & g1 & E1 & E).
    apply process_returns in E1 as (outs1 & -> & Hplan1 & Hk1 & Hall1).
    apply IH in E as (outs & -> & Hplan & Hk & Hall).
    exists (outs1 ++ outs). split; [now rewrite <- app_assoc|].
    split; [simpl; now rewrite map_app, Hplan1, Hplan|].
    split; [eapply files_kept_trans; eauto|].
    apply Forall_app. split; [|exact Hall].
    eapply Forall_impl; [exact Hall1|]. intros out. apply (proj1 Hk).
Qed.

End IdlLoop.

End Facts.

End OrchestratorRuns.

(* ===================================================================== *)
(** ** The set-up of a run                                               *)
(* ===================================================================== *)

Module OrchestratorSetup.

Section Facts.

Context `{Collaborators}.

(** The three checks of the set-up change nothing, and return exactly
    when what they check holds. *)
Lemma check_templates_outcome template_basepath keys st :
  (check_templates template_basepath keys st = (st, Return tt)
   /\ forall key, key ∈ keys ->
        path_exists st (Path_str (Path_div template_basepath key)) = true)
  \/ (exists e, check_templates template_basepath keys st = (st, Raise e)
      /\ exists key, key ∈ keys
           /\ path_exists st (Path_str (Path_div template_basepath key)) = false).
Proof.
  induction keys as [|k keys IH].
  - left. split; [reflexivity|]. intros key Hin. inversion Hin.
  - simpl. rewrite bind_unfold. unfold os_path_exists, gets.
    destruct (path_exists st (Path_str (Path_div template_basepath k))) eqn:Ek.
    + rewrite bind_unfold. simpl. destruct IH as [[E Hall]|(e & E & key & Hin & Hk)].
      * left. split; [exact E|]. intros key Hin.
        apply elem_of_cons in Hin as [->|Hin]; auto.
      * right. exists e. split; [exact E|]. exists key. split; [now right|exact Hk].
    + right. eexists. split; [reflexivity|]. exists k. split; [left|exact Ek].
Qed.

Lemma newest_loop_outcome deps acc st :
  (exists r, newest_loop deps acc st = (st, Return r)
     /\ forall d, d ∈ deps -> is_Some (files st !! d))
  \/ (exists e, newest_loop deps acc st = (st, Raise e)
      /\ exists d, d ∈ deps /\ files st !! d = None).
Proof.
  revert acc. induction deps as [|d deps IH]; intros acc.
  - left. eexists. split; [reflexivity|]. intros d Hin. inversion Hin.
  - simpl. rewrite bind_unfold. unfold os_path_getmtime.
    destruct (files st !! d) as [f|] eqn:Ef.
    + destruct (IH (match acc with
                    | Some newest =>
                        if file_mtime f >? newest then Some (file_mtime f) else Some newest
                    | None => Some (file_mtime f)
                    end)) as [(r & E & Hall)|(e & E & d' & Hin & Hd')].
      * left. exists r. split; [exact E|]. intros d' Hin.
        apply elem_of_cons in Hin as [->|Hin]; eauto.
      * right. exists e. split; [exact E|]. exists d'. split; [now right|exact Hd'].
    + right. eexists. split; [reflexivity|]. exists d. split; [left|exact Ef].
Qed.

Lemma tuples_outcome tuples acc st :
  (exists m, read_type_description_tuples tuples acc st = (st, Return m)
     /\ forall t, t ∈ tuples -> is_Some (split_first ":" t))
  \/ (read_type_description_tuples tuples acc st = (st, Raise (mkExn AssertionError ""))
      /\ exists t, t ∈ tuples /\ split_first ":" t = None).
Proof.
  revert acc. induction tuples as [|t tuples IH]; intros acc.
  - left. eexists. split; [reflexivity|]. intros t Hin. inversion Hin.
  - simpl. destruct (split_first ":" t) as [[a b]|] eqn:Et.
    + destruct (IH (<[a := b]> acc)) as [(m & E & Hall)|(E & t' & Hin & Ht')].
      * left. exists m. split; [exact E|]. intros t' Hin.
        apply elem_of_cons in Hin as [->|Hin]; [rewrite Et; eauto|auto].
      * right. split; [exact E|]. exists t'. split; [now right|exact Ht'].
    + right. split; [reflexivity|]. exists t. split; [left|exact Et].
Qed.

Lemma setup_sound_same_files st st' args mapping :
  files st' = files st -> setup_sound st' args mapping <-> setup_sound st args mapping.
Proof. intros E. unfold setup_sound, path_exists. now rewrite E. Qed.

(** [generate_files] enters the loop over the IDL tuples exactly when
    the set-up is sound; otherwise it raises, and all it has done by then
    is to open the generator-arguments file. *)
Theorem setup_guards_loop depth generator_arguments_file mapping additional_context
    keep_case post_process_callback st st1 args :
  read_generator_arguments generator_arguments_file st = (st1, Return args) ->
  (setup_sound st args mapping ->
   exists dir latest type_description_files,
     template_dir args = Some dir
     /\ generate_files depth generator_arguments_file mapping additional_context
          keep_case post_process_callback st
        = process_idl_tuples depth args mapping additional_context keep_case
            post_process_callback (Path_of dir) latest type_description_files
            (read_ros_interface_files (default [] (ros_interface_files args)))
            (default [] (idl_tuples args)) [] st1)
  /\ (~ setup_sound st args mapping ->
      exists e,
        generate_files depth generator_arguments_file mapping additional_context
          keep_case post_process_callback st
        = (set_trace (fun l => l ++ [Opened generator_arguments_file]) st, Raise e)).
Proof.
  intros Hread.
  pose proof (OrchestratorFacts.read_generator_arguments_returns _ _ _ _ Hread) as Hst1.
  assert (Hsame : setup_sound st1 args mapping <-> setup_sound st args mapping)
    by (apply setup_sound_same_files; subst st1; reflexivity).
  assert (Hrun :
    (setup_sound st1 args mapping /\
     exists dir latest type_description_files,
       template_dir args = Some dir
       /\ generate_files depth generator_arguments_file mapping additional_context
            keep_case post_process_callback st
          = process_idl_tuples depth args mapping additional_context keep_case
              post_process_callback (Path_of dir) latest type_description_files
              (read_ros_interface_files (default [] (ros_interface_files args)))
              (default [] (idl_tuples args)) [] st1)
    \/ (~ setup_sound st1 args mapping /\
        exists e,
          generate_files depth generator_arguments_file mapping additional_context
            keep_case post_process_callback st = (st1, Raise e))).
  { unfold generate_files. rewrite (bind_return _ _ _ _ _ Hread).
    destruct (template_dir args) as [dir|] eqn:Hdir.
    2:{ right. split; [|eexists; reflexivity].
        intros ((dir & Hd & _) & _). congruence. }
    rewrite bind_unfold. simpl. rewrite bind_unfold.
    destruct (check_templates_outcome (Path_of dir) (mapping.*1) st1)
      as [[-> Hkeys]|(e & -> & key & Hin & Hk)].
    2:{ right. split; [|eexists; reflexivity].
        intros ((dir' & Hd & Hall) & _). assert (dir' = dir) by congruence. subst dir'.
        rewrite (Hall key Hin) in Hk. discriminate. }
    destruct (target_dependencies args) as [deps|] eqn:Hdeps.
    2:{ right. split; [|eexists; reflexivity].
        intros (_ & (deps & Hd & _) & _). congruence. }
    rewrite bind_unfold. simpl. rewrite bind_unfold. unfold get_newest_modification_time.
    destruct (newest_loop_outcome deps None st1)
      as [(latest & -> & Hall)|(e & -> & d & Hin & Hd)].
    2:{ right. split; [|eexists; reflexivity].
        intros (_ & (deps' & Hd' & Hall') & _). assert (deps' = deps) by congruence.
        subst deps'. destruct (Hall' d Hin) as [f Hf]. congruence. }
    rewrite bind_unfold.
    destruct (tuples_outcome (default [] (type_description_tuples args)) ∅ st1)
      as [(m & -> & Htuples)|(-> & t & Hin & Ht)].
    2:{ right. split; [|eexists; reflexivity].
        intros (_ & _ & Hall'). destruct (Hall' t Hin) as [x Hx]. congruence. }
    left. split.
    - split; [eauto|]. split; [eauto|exact Htuples].
    - exists dir, latest, m. split; reflexivity. }
  destruct Hrun as [[Hs Hloop]|[Hn Hraise]].
  - split; [intros _; exact Hloop|]. intros Hno. exfalso. apply Hno. now apply Hsame.
  - split; [intros Hs; exfalso; apply Hn; now apply Hsame|].
    intros _. now rewrite <- Hst1.
Qed.

(** A run that returns went through the loop over the IDL tuples, from a
    state which had the files and the search path of its start. *)
Lemma returns_through_loop depth generator_arguments_file mapping additional_context
    keep_case post_process_callback st st' generated :
  generate_files depth generator_arguments_file mapping additional_context
    keep_case post_process_callback st = (st', Return generated) ->
  exists args dir latest type_description_files st1,
    read_generator_arguments generator_arguments_file st = (st1, Return args)
    /\ files st1 = files st
    /\ template_prefix_path st1 = template_prefix_path st
    /\ process_idl_tuples depth args mapping additional_context keep_case
         post_process_callback (Path_of dir) latest type_description_files
         (read_ros_interface_files (default [] (ros_interface_files args)))
         (default [] (idl_tuples args)) [] st1
       = (st', Return generated).
Proof.
  intros Hret.
  destruct (read_generator_arguments generator_arguments_file st)
    as [st1 [args|e]] eqn:Hread.
  2:{ unfold generate_files in Hret. rewrite (bind_raise _ _ _ _ _ Hread) in Hret.
      discriminate. }
  pose proof (OrchestratorFacts.read_generator_arguments_returns _ _ _ _ Hread) as Hst1.
  unfold generate_files in Hret. rewrite (bind_return _ _ _ _ _ Hread) in Hret.
  apply bind_returns in Hret as (s2 & dir & E2 & Hret).
  apply OrchestratorRuns.getitem_returns in E2 as [Hdir ->].
  apply bind_returns in Hret as (s3 & [] & E3 & Hret).
  destruct (check_templates_outcome (Path_of dir) (mapping.*1) st1)
    as [[E Hkeys]|(e & E & _)]; rewrite E in E3; [|discriminate].
  inversion E3; subst s3. clear E3 E.
  apply bind_returns in Hret as (s4 & deps & E4 & Hret).
  apply OrchestratorRuns.getitem_returns in E4 as [Hdeps ->].
  apply bind_returns in Hret as (s5 & latest & E5 & Hret).
  unfold get_newest_modification_time in E5.
  destruct (newest_loop_outcome deps None st1)
    as [(r & E & _)|(e & E & _)]; rewrite E in E5; [|discriminate].
  inversion E5; subst s5 r. clear E5 E.
  apply bind_returns in Hret as (s6 & m & E6 & Hret).
  destruct (tuples_outcome (default [] (type_description_tuples args)) ∅ st1)
    as [(m' & E' & _)|(E' & _)]; rewrite E' in E6; [|discriminate].
  inversion E6; subst s6 m'. clear E6.
  exists args, dir, latest, m, st1. split; [reflexivity|].
  split; [subst st1; reflexivity|]. split; [subst st1; reflexivity|]. exact Hret.
Qed.

(** The list [generate_files] returns is the list of the planned output
    paths, IDL tuple by IDL tuple and, within a tuple, in the order of the
    mapping: one path per tuple and template. *)
Theorem generated_files_are_planned depth generator_arguments_file mapping
    additional_context keep_case post_process_callback st st' generated :
  generate_files depth generator_arguments_file mapping additional_context
    keep_case post_process_callback st = (st', Return generated) ->
  exists args,
    (read_generator_arguments generator_arguments_file st).2 = Return args
    /\ map Some generated
       = planned_outputs args keep_case mapping (default [] (idl_tuples args))
    /\ length generated
       = (length (default [] (idl_tuples args)) * length mapping)%nat.
Proof.
  intros Hret.
  destruct (returns_through_loop _ _ _ _ _ _ _ _ _ Hret)
    as (args & dir & latest & m & st1 & Hread & _ & _ & Hloop).
  apply OrchestratorRuns.loop_returns in Hloop as (outs & -> & Hplan & _).
  exists args. split; [now rewrite Hread|]. simpl. split; [exact Hplan|].
  rewrite <- (length_map Some outs), Hplan. unfold planned_outputs.
  generalize (default [] (idl_tuples args)). intros tuples.
  induction tuples as [|t tuples IH]; simpl; [reflexivity|].
  rewrite length_app, length_map, IH. reflexivity.
Qed.

(** After a run that returns, every path of the returned list names a
    file that exists, no file that existed before is gone, and the search
    path is what it was. *)
Theorem generated_files_exist depth generator_arguments_file mapping
    additional_context keep_case post_process_callback st st' generated :
  generate_files depth generator_arguments_file mapping additional_context
    keep_case post_process_callback st = (st', Return generated) ->
  Forall (fun out => is_Some (files st' !! out)) generated
  /\ (forall p, is_Some (files st !! p) -> is_Some (files st' !! p))
  /\ template_prefix_path st' = template_prefix_path st.
Proof.
  intros Hret.
  destruct (returns_through_loop _ _ _ _ _ _ _ _ _ Hret)
    as (args & dir & latest & m & st1 & _ & Hf & Hp & Hloop).
  apply OrchestratorRuns.loop_returns in Hloop as (outs & -> & _ & [Hkeep Hpath] & Hall).
  split; [exact Hall|]. split.
  - intros p Hex. apply Hkeep. now rewrite Hf.
  - congruence.
Qed.

End Facts.

End OrchestratorSetup.

(* ===================================================================== *)
(** ** The shape of normalized names                                     *)
(* ===================================================================== *)

Module NamingShape.

Import Naming.

Lemma inserted_refl s : underscores_inserted s s.
Proof. induction s; constructor; assumption. Qed.

Lemma inserted_app s1 t1 s2 t2 :
  underscores_inserted s1 t1 -> underscores_inserted s2 t2 ->
  underscores_inserted (s1 +:+ s2) (t1 +:+ t2).
Proof.
  intros H1 H2. induction H1 as [|c s t H1 IH|s t H1 IH].
  - exact H2.
  - rewrite !append_cons. now constructor.
  - rewrite append_cons. now constructor.
Qed.

Lemma inserted_trans s t u :
  underscores_inserted s t -> underscores_inserted t u -> underscores_inserted s u.
Proof.
  intros H1 H2. revert s H1.
  induction H2 as [|c t u H2 IH|t u H2 IH]; intros s H1.
  - exact H1.
  - inversion H1; subst.
    + constructor. now apply IH.
    + constructor. now apply IH.
  - constructor. now apply IH.
Qed.

Lemma span_lower_app s run rest : span_lower s = (run, rest) -> s = run +:+ rest.
Proof.
  revert run rest. induction s as [|c tl IH]; intros run rest E; simpl in E.
  - now inversion E.
  - destruct (is_lower c).
    + destruct (span_lower tl) as [run' rest'] eqn:E'. inversion E; subst.
      rewrite append_cons. f_equal. now apply IH.
    + now inversion E.
Qed.

Lemma match_upper_lower_inserts : only_inserts match_upper_lower.
Proof.
  intros s repl rest E. destruct s as [|c [|u [|l tl]]]; try discriminate.
  unfold match_upper_lower in E.
  destruct (is_dot c && is_upper u && is_lower l) eqn:Hc; [|discriminate].
  destruct (span_lower tl) as [run rest'] eqn:E'. inversion E; subst.
  apply span_lower_app in E'. subst tl.
  exists (String c (String u (String l run))). split.
  - now rewrite !append_cons.
  - constructor. constructor. apply inserted_refl.
Qed.

Lemma match_lower_upper_inserts : only_inserts match_lower_upper.
Proof.
  intros s repl rest E. destruct s as [|c [|u tl]]; try discriminate.
  unfold match_lower_upper in E.
  destruct (is_lower_or_digit c && is_upper u); [|discriminate].
  inversion E; subst. exists (String c (String u EmptyString)). split.
  - now rewrite !append_cons.
  - constructor. constructor. apply inserted_refl.
Qed.

Lemma re_sub_from_inserts match_at :
  only_inserts match_at ->
  forall fuel s, underscores_inserted s (re_sub_from match_at fuel s).
Proof.
  intros Hm. induction fuel as [|n IH]; intros s; simpl; [apply inserted_refl|].
  destruct (match_at s) as [[repl rest]|] eqn:E.
  - destruct (Hm s repl rest E) as (matched & -> & Hins).
    apply inserted_app; [exact Hins|apply IH].
  - destruct s as [|c tl]; constructor. apply IH.
Qed.

(** The normalizer changes a name in two ways only: it puts underscores
    in, and it lowers letters.  Its result is [t.lower()] for a [t] that
    is the name with underscores put in: no character of the name is
    dropped, changed or moved before the lowering. *)
Theorem normalizer_inserts_and_lowers (s : string) :
  exists t,
    underscores_inserted s t
    /\ convert_camel_case_to_lower_case_underscore s = lower t.
Proof.
  exists (re_sub match_lower_upper (re_sub match_upper_lower s)). split.
  - apply (inserted_trans s (re_sub match_upper_lower s)).
    + apply (re_sub_from_inserts _ match_upper_lower_inserts).
    + apply (re_sub_from_inserts _ match_lower_upper_inserts).
  - reflexivity.
Qed.

(** The names the normalizer leaves as they are are those [str.lower]
    leaves as they are. *)
Theorem normalizer_fixed_points (s : string) :
  convert_camel_case_to_lower_case_underscore s = s <-> lower s = s.
Proof.
  assert (Hlow : no_upper s = true ->
                 convert_camel_case_to_lower_case_underscore s = lower s).
  { intros Hs. unfold convert_camel_case_to_lower_case_underscore.
    rewrite (NamingFacts.re_sub_no_match match_upper_lower s
               NamingFacts.match_upper_lower_needs_upper Hs).
    now rewrite (NamingFacts.re_sub_no_match match_lower_upper s
                   NamingFacts.match_lower_upper_needs_upper Hs). }
  split; intros E.
  - assert (Hs : no_upper s = true).
    { rewrite <- E. unfold convert_camel_case_to_lower_case_underscore.
      apply NamingFacts.lower_no_upper. }
    now rewrite <- (Hlow Hs).
  - assert (Hs : no_upper s = true) by (rewrite <- E; apply NamingFacts.lower_no_upper).
    now rewrite (Hlow Hs).
Qed.

End NamingShape.

(* ===================================================================== *)
(** ** The theorems at work in the small world                            *)
(* ===================================================================== *)

Module Examples.

#[local] Existing Instance Demo.world.

(** The library functions of the model on the inputs the source meets. *)
Example dirname_examples :
  os_path_dirname "/out/msg/point.h" = "/out/msg"
  /\ os_path_dirname "/point.h" = "/"
  /\ os_path_dirname "point.h" = ""
  /\ os_path_basename "templates/msg.h.em" = "msg.h.em"
  /\ os_path_join (os_path_join "/out" "msg") "point.h" = "/out/msg/point.h"
  /\ os_path_join (os_path_join "out" ".") "point.h" = "out/./point.h".
Proof. repeat split; reflexivity. Qed.

Example pathlib_examples :
  Path_str (Path_div (Path_of "/t") "msg.h.em") = "/t/msg.h.em"
  /\ Path_str (Path_parent (Path_of "t.em")) = "."
  /\ Path_name (Path_of "/t/msg.h.em") = "msg.h.em"
  /\ Path_stem (Path_of "msg/Point.idl") = "Point"
  /\ Path_suffix (Path_of "msg/Point.idl") = ".idl"
  /\ Path_parts (Path_of "msg/Point.idl") = ["msg"; "Point.idl"]
  /\ Path_str (get_absolute_path (mkIdlLocator "/src/pkg" "msg/Point.idl"))
     = "/src/pkg/msg/Point.idl".
Proof. repeat split; reflexivity. Qed.

Example split_examples :
  split_last ":" "C:/ws:msg/Point.idl" = Some ("C:/ws", "msg/Point.idl")
  /\ split_first ":" "msg/Point.idl:/td/a:b.json" = Some ("msg/Point.idl", "/td/a:b.json")
  /\ split_last ":" "msg/Point.idl" = None.
Proof. repeat split; reflexivity. Qed.

Example percent_format_examples :
  percent_format "%s.h" "point" = inr "point.h"
  /\ percent_format "%%s%s" "x" = inr "%sx"
  /\ percent_format "point.h" "x"
     = inl (mkExn TypeError "not all arguments converted during string formatting")
  /\ percent_format "%s_%s" "x"
     = inl (mkExn TypeError "not enough arguments for format string")
  /\ percent_format "%5s.h" "x" = str_format "%5s.h" "x"
  /\ percent_format "%s%" "x" = str_format "%s%" "x".
Proof. repeat split; reflexivity. Qed.

Example universal_newlines_examples :
  universal_newlines ("a" +:+ String "013" (String "010" ("b" +:+ String "013" "c")))
  = "a" +:+ String "010" ("b" +:+ String "010" "c").
Proof. reflexivity. Qed.

Example normalizer_examples :
  Naming.convert_camel_case_to_lower_case_underscore "XAbcDe1F" = "x_abc_de1_f"
  /\ Naming.convert_camel_case_to_lower_case_underscore "AaBbb" = "aa_bbb"
  /\ Naming.convert_camel_case_to_lower_case_underscore "ABc" = "a_bc"
  /\ Naming.convert_camel_case_to_lower_case_underscore "aBC" = "a_bc".
Proof. repeat split; reflexivity. Qed.

(** The end-to-end scenario of the specification: one IDL entry
    [msg/Point.idl], one template mapped to ["%s.h"], case conversion on. *)
Example generate_point :
  let r := generate_files 5 "/args.json" [("msg__struct.h.em", "%s.h")]
             None false None Demo.start in
  r.2 = Return ["/out/msg/point.h"]
  /\ files r.1 !! "/out/msg/point.h" = Some (mkFile "struct pkg;" 10)
  /\ template_prefix_path r.1 = [].
Proof. repeat split; vm_compute; reflexivity. Qed.

(** C1 (failing input).  The template renders and the output is not
    there yet, so the content is to be written; but the output path is a
    bare file name, [os.makedirs('')] raises [FileNotFoundError], and the
    call ends in that error with nothing written. *)
Theorem bare_output_name_not_written :
  let r := expand_template 5 "msg__struct.h.em" 0 "point.h" None
             (Some (Path_of "/t")) None Demo.start in
  renders 5 "msg__struct.h.em" 0 (Some (Path_of "/t")) None Demo.start "struct pkg;"
  /\ ~ unchanged_output Demo.start "point.h" None "struct pkg;"
  /\ os_path_dirname "point.h" = ""
  /\ r.2 = Raise (mkExn FileNotFoundError "")
  /\ files r.1 = files Demo.start
  /\ files r.1 !! "point.h" = None.
Proof.
  split; [|split].
  - by_running "msg__struct.h.em" (Path_of "/t/msg__struct.h.em") 1%nat.
  - intros (f & Hf & _). vm_compute in Hf. discriminate.
  - repeat split; vm_compute; reflexivity.
Qed.

(** C3 (failing input).  A call whose template is not found raises the
    lookup error and leaves the directory it pushed on the search path: the
    path was empty before the call and holds [/a] after it.  The next call,
    for [t.em] under [/b], then renders [/a/t.em]. *)
Theorem lookup_failure_leaves_directory :
  let r := expand_template 5 "missing.em" 0 "/out/x.h" None
             (Some (Path_of "/a")) None Demo.start in
  let r' := expand_template 5 "t.em" 0 "/out/t.h" None
              (Some (Path_of "/b")) None r.1 in
  template_prefix_path Demo.start = []
  /\ r.2 = Raise (template_not_found "missing.em")
  /\ template_prefix_path r.1 = [Path_of "/a"]
  /\ r'.2 = Return tt
  /\ files r'.1 !! "/out/t.h" = Some (mkFile "from a" 10)
  /\ template_prefix_path r'.1 = [Path_of "/a"].
Proof. repeat split; vm_compute; reflexivity. Qed.


(** Two runs of the write decision that exact text and plain writing
    would get wrong.  The output [/out/crlf.h] holds the line with [CR LF]
    at its end and the template renders it with [LF]: read in text mode
    the file is the content, and it is left as it is.  And below the
    regular file [/out/old.h] nothing can be written. *)
Example write_decision_examples :
  let crlf := "line" +:+ String "013" (String "010" EmptyString) in
  let lf := "line" +:+ String "010" EmptyString in
  let st := set_files (fun fs => <["/t/line.em" := mkFile lf 1]>
                                   (<["/out/crlf.h" := mkFile crlf 9]> fs))
              Demo.start in
  let r := expand_template 5 "line.em" 0 "/out/crlf.h" None (Some (Path_of "/t")) None
             st in
  let r' := expand_template 5 "msg__struct.h.em" 0 "/out/old.h/x.h" None
              (Some (Path_of "/t")) None Demo.start in
  r.2 = Return tt
  /\ files r.1 !! "/out/crlf.h" = Some (mkFile crlf 9)
  /\ under_file Demo.start "/out/old.h/x.h" = true
  /\ r'.2 = Raise (mkExn NotADirectoryError "/out/old.h/x.h")
  /\ files r'.1 = files Demo.start.
Proof. repeat split; vm_compute; reflexivity. Qed.

(** The search path after a call that found its template and failed while
    rendering: as before the call. *)
Lemma search_path_restored_witness :
  expand_template_enter "/t/outer.em" 0 None Demo.start
    = ((expand_template_enter "/t/outer.em" 0 None Demo.start).1,
       Return ("outer.em", Path_of "/t/outer.em", 1%nat))
  /\ template_prefix_path
       (expand_template 5 "/t/outer.em" 0 "/out/old.h" None None None Demo.start).1
     = template_prefix_path Demo.start.
Proof.
  assert (Henter : expand_template_enter "/t/outer.em" 0 None Demo.start
            = ((expand_template_enter "/t/outer.em" 0 None Demo.start).1,
               Return ("outer.em", Path_of "/t/outer.em", 1%nat)))
    by (vm_compute; reflexivity).
  split; [exact Henter|].
  exact (ExpanderFacts.search_path_restored 5 "/t/outer.em" 0 "/out/old.h" None None None
           Demo.start _ _ _ _ Henter).
Defined.

(** C5 at work: [/t/outer.em] includes [/t/broken.em], which raises; the
    stale [/out/old.h] is gone afterwards. *)
Lemma rendering_failure_cleanup_witness :
  rendering_raises 5 "/t/outer.em" 0 None Demo.start Demo.division_by_zero
  /\ is_Some (files Demo.start !! "/out/old.h")
  /\ exists st' nested,
       expand_template 5 "/t/outer.em" 0 "/out/old.h" None None None Demo.start
         = (st', Raise Demo.division_by_zero)
       /\ files st' !! "/out/old.h" = None
       /\ files st' = delete "/out/old.h" (files Demo.start)
       /\ dirs st' = dirs Demo.start /\ clock st' = clock Demo.start
       /\ stderr st'
          = stderr Demo.start ++ nested ++
            [class_name (exn_cls Demo.division_by_zero) +:+ " when expanding '"
             +:+ (resolve_template "/t/outer.em" None).2
             +:+ "' into '" +:+ "/out/old.h" +:+ "': "
             +:+ exn_str Demo.division_by_zero].
Proof.
  assert (Hr : rendering_raises 5 "/t/outer.em" 0 None Demo.start Demo.division_by_zero).
  { by_running "outer.em" (Path_of "/t/outer.em") 1%nat. }
  split; [exact Hr|]. split; [vm_compute; eauto|].
  exact (ExpanderFacts.rendering_failure_cleanup 5 "/t/outer.em" 0 "/out/old.h" None None None
           Demo.start Demo.division_by_zero Hr).
Defined.

(** C10 at work: [/t/setter.em] rebinds [package_name] while it renders;
    the caller's dict still holds what it held. *)
Lemma context_not_mutated_witness :
  heap Demo.start !! 0%nat = Some Demo.context
  /\ heap (expand_template 5 "setter.em" 0 "/out/setter.h" None
             (Some (Path_of "/t")) None Demo.start).1 !! 0%nat
     = Some Demo.context.
Proof.
  assert (Hd : heap Demo.start !! 0%nat = Some Demo.context) by reflexivity.
  split; [exact Hd|].
  exact (proj1 (ExpanderFacts.context_not_mutated 5 "setter.em" 0 "/out/setter.h" None
                  (Some (Path_of "/t")) None Demo.start Demo.context Hd)).
Defined.

(** C9 at work: the mapping names [nope.em], which [/t] does not hold. *)
Lemma unknown_template_fails_fast_witness :
  read_generator_arguments "/args.json" Demo.start
    = (set_trace (fun l => l ++ [Opened "/args.json"]) Demo.start, Return Demo.manifest)
  /\ exists key,
       key ∈ [("msg__struct.h.em", "%s.h"); ("nope.em", "%s.c")].*1
       /\ path_exists Demo.start (Path_str (Path_div (Path_of "/t") key)) = false
       /\ generate_files 5 "/args.json"
            [("msg__struct.h.em", "%s.h"); ("nope.em", "%s.c")] None false None Demo.start
          = (set_trace (fun l => l ++ [Opened "/args.json"]) Demo.start,
             Raise (mkExn AssertionError ("Could not find template: " +:+ key))).
Proof.
  assert (Hread : read_generator_arguments "/args.json" Demo.start
            = (set_trace (fun l => l ++ [Opened "/args.json"]) Demo.start,
               Return Demo.manifest)) by reflexivity.
  split; [exact Hread|].
  refine (proj1 (OrchestratorFacts.unknown_template_fails_fast 5 "/args.json"
           [("msg__struct.h.em", "%s.h"); ("nope.em", "%s.c")] None false None
           Demo.start _ Demo.manifest "/t" Hread eq_refl _)).
  exists "nope.em". split; [right; left|reflexivity].
Defined.

(** C7 at work: of [/dep/a] (time 3) and [/dep/b] (time 7) the newest
    is 7. *)
Lemma newest_modification_time_witness :
  exists m,
    get_newest_modification_time ["/dep/a"; "/dep/b"] Demo.start
      = (Demo.start, Return (Some m))
    /\ (exists d f, d ∈ ["/dep/a"; "/dep/b"]
          /\ files Demo.start !! d = Some f /\ file_mtime f = m)
    /\ (forall d f, d ∈ ["/dep/a"; "/dep/b"] ->
          files Demo.start !! d = Some f -> file_mtime f <= m).
Proof.
  refine (proj1 (proj2 (StalenessFacts.newest_modification_time Demo.start))
            ["/dep/a"; "/dep/b"] _ _).
  - discriminate.
  - intros d Hd. apply elem_of_cons in Hd as [->|Hd]; [vm_compute; eauto|].
    apply elem_of_cons in Hd as [->|Hd]; [vm_compute; eauto|]. inversion Hd.
Defined.

(** C6 at work: the parser rejects [msg/Bad.idl]; the diagnostic names its
    absolute path and the second entry is never looked at. *)
Example idl_entry_failure_example :
  let r := generate_files 5 "/args-bad.json" [("msg__struct.h.em", "%s.h")]
             None false None Demo.start in
  r.2 = Raise (mkExn (OtherError "UnexpectedInput") "bad")
  /\ stderr r.1 = ["Error processing idl file: /src/pkg/msg/Bad.idl"]
  /\ trace r.1 = [Opened "/args-bad.json"; Parsed "/src/pkg/msg/Bad.idl";
                  Opened "/src/pkg/msg/Bad.idl"].
Proof. repeat split; vm_compute; reflexivity. Qed.

End Examples.

(* ===================================================================== *)
(** ** Further runs in the small worlds                                  *)
(* ===================================================================== *)

Module MoreExamples.

#[local] Existing Instance Demo.world.

(** A call that returns: [/out/msg/new.h] was not there and is
    written. *)
Lemma returns_with_output_witness :
  let r := expand_template 5 "msg__struct.h.em" 0 "/out/msg/new.h" None
             (Some (Path_of "/t")) None Demo.start in
  r.2 = Return tt
  /\ exists content,
       renders 5 "msg__struct.h.em" 0 (Some (Path_of "/t")) None Demo.start content
       /\ ((files r.1 = files Demo.start /\ clock r.1 = clock Demo.start
            /\ unchanged_output Demo.start "/out/msg/new.h" None content)
           \/ (files r.1
               = <["/out/msg/new.h" := mkFile content (clock Demo.start)]>
                   (files Demo.start)
               /\ ~ unchanged_output Demo.start "/out/msg/new.h" None content))
       /\ is_Some (files r.1 !! "/out/msg/new.h")
       /\ template_prefix_path r.1 = template_prefix_path Demo.start.
Proof.
  assert (E : expand_template 5 "msg__struct.h.em" 0 "/out/msg/new.h" None
                (Some (Path_of "/t")) None Demo.start
              = ((expand_template 5 "msg__struct.h.em" 0 "/out/msg/new.h" None
                    (Some (Path_of "/t")) None Demo.start).1, Return tt))
    by (vm_compute; reflexivity).
  split; [vm_compute; reflexivity|].
  exact (ExpanderOutcomes.returns_with_output 5 "msg__struct.h.em" 0 "/out/msg/new.h"
           None (Some (Path_of "/t")) None Demo.start _ E).
Defined.

(** The lookup fails: [/a] holds no [missing.em], and [/a] stays on the
    search path. *)
Lemma search_path_left_extended_witness :
  find_template Demo.start
    (template_prefix_path Demo.start
     ++ [(resolve_template "missing.em" (Some (Path_of "/a"))).1])
    (resolve_template "missing.em" (Some (Path_of "/a"))).2 = None
  /\ expand_template 5 "missing.em" 0 "/out/x.h" None (Some (Path_of "/a")) None
       Demo.start
     = (set_template_prefix_path
          (fun l => l ++ [(resolve_template "missing.em" (Some (Path_of "/a"))).1])
          Demo.start,
        Raise (template_not_found (resolve_template "missing.em" (Some (Path_of "/a"))).2)).
Proof.
  assert (Hnone : find_template Demo.start
            (template_prefix_path Demo.start
             ++ [(resolve_template "missing.em" (Some (Path_of "/a"))).1])
            (resolve_template "missing.em" (Some (Path_of "/a"))).2 = None)
    by (vm_compute; reflexivity).
  split; [exact Hnone|].
  exact (ExpanderFacts.search_path_left_extended 5 "missing.em" 0 "/out/x.h" None
           (Some (Path_of "/a")) None Demo.start Hnone).
Defined.

(** The bare output name [point.h]: the template renders, and the call
    ends in the error of [os.makedirs('')]. *)
Lemma bare_name_raises_witness :
  renders 5 "msg__struct.h.em" 0 (Some (Path_of "/t")) None Demo.start "struct pkg;"
  /\ path_exists Demo.start "point.h" = false
  /\ os_path_dirname "point.h" = ""
  /\ exists st',
       expand_template 5 "msg__struct.h.em" 0 "point.h" None
         (Some (Path_of "/t")) None Demo.start
       = (st', Raise (mkExn FileNotFoundError ""))
       /\ files st' = files Demo.start /\ dirs st' = dirs Demo.start
       /\ template_prefix_path st' = template_prefix_path Demo.start.
Proof.
  assert (Hr : renders 5 "msg__struct.h.em" 0 (Some (Path_of "/t")) None
                 Demo.start "struct pkg;").
  { by_running "msg__struct.h.em" (Path_of "/t/msg__struct.h.em") 1%nat. }
  assert (Hex : path_exists Demo.start "point.h" = false) by (vm_compute; reflexivity).
  assert (Hdir : os_path_dirname "point.h" = "") by (vm_compute; reflexivity).
  split; [exact Hr|]. split; [exact Hex|]. split; [exact Hdir|].
  exact (ExpanderOutcomes.bare_name_raises 5 "msg__struct.h.em" 0 "point.h" None
           (Some (Path_of "/t")) None Demo.start "struct pkg;" Hr Hex Hdir).
Defined.

(** The set-up of the run on [/args.json] is sound, and the run is the
    loop over its one IDL tuple. *)
Lemma setup_guards_loop_witness :
  read_generator_arguments "/args.json" Demo.start
    = (set_trace (fun l => l ++ [Opened "/args.json"]) Demo.start, Return Demo.manifest)
  /\ setup_sound Demo.start Demo.manifest [("msg__struct.h.em", "%s.h")]
  /\ exists dir latest type_description_files,
       template_dir Demo.manifest = Some dir
       /\ generate_files 5 "/args.json" [("msg__struct.h.em", "%s.h")] None false None
            Demo.start
          = process_idl_tuples 5 Demo.manifest [("msg__struct.h.em", "%s.h")] None false
              None (Path_of dir) latest type_description_files
              (read_ros_interface_files (default [] (ros_interface_files Demo.manifest)))
              (default [] (idl_tuples Demo.manifest)) []
              (set_trace (fun l => l ++ [Opened "/args.json"]) Demo.start).
Proof.
  assert (Hread : read_generator_arguments "/args.json" Demo.start
            = (set_trace (fun l => l ++ [Opened "/args.json"]) Demo.start,
               Return Demo.manifest)) by reflexivity.
  assert (Hsound : setup_sound Demo.start Demo.manifest [("msg__struct.h.em", "%s.h")]).
  { split; [|split].
    - exists "/t". split; [reflexivity|]. intros key Hin.
      apply elem_of_cons in Hin as [->|Hin]; [vm_compute; reflexivity|inversion Hin].
    - exists ["/dep/a"; "/dep/b"]. split; [reflexivity|]. intros d Hin.
      apply elem_of_cons in Hin as [->|Hin]; [vm_compute; eauto|].
      apply elem_of_cons in Hin as [->|Hin]; [vm_compute; eauto|inversion Hin].
    - intros t Hin. inversion Hin. }
  split; [exact Hread|]. split; [exact Hsound|].
  exact (proj1 (OrchestratorSetup.setup_guards_loop 5 "/args.json"
                  [("msg__struct.h.em", "%s.h")] None false None Demo.start _
                  Demo.manifest Hread) Hsound).
Defined.

(** After the run on [/args.json], [/out/msg/point.h] is there. *)
Lemma generated_files_exist_witness :
  let r := generate_files 5 "/args.json" [("msg__struct.h.em", "%s.h")] None false
             None Demo.start in
  r.2 = Return ["/out/msg/point.h"]
  /\ Forall (fun out => is_Some (files r.1 !! out)) ["/out/msg/point.h"]
  /\ (forall p, is_Some (files Demo.start !! p) -> is_Some (files r.1 !! p))
  /\ template_prefix_path r.1 = template_prefix_path Demo.start.
Proof.
  assert (E : generate_files 5 "/args.json" [("msg__struct.h.em", "%s.h")] None false
                None Demo.start
              = ((generate_files 5 "/args.json" [("msg__struct.h.em", "%s.h")] None
                    false None Demo.start).1, Return ["/out/msg/point.h"]))
    by (vm_compute; reflexivity).
  split; [vm_compute; reflexivity|].
  exact (OrchestratorSetup.generated_files_exist 5 "/args.json"
           [("msg__struct.h.em", "%s.h")] None false None Demo.start _ _ E).
Defined.

(** No interpreter is installed in the state with [/a] and [/b] pushed:
    the nested call finds [/a/t.em] and raises its own error. *)
Lemma nested_needs_interpreter_witness :
  interpreter Demo.two_pushed = None
  /\ exists st',
       _expand_template 5 "t.em" [] Demo.two_pushed
       = (st', Raise
                 match find_template Demo.two_pushed
                         (template_prefix_path Demo.two_pushed) "t.em" with
                 | Some _ =>
                     mkExn RuntimeError "_expand_template called before expand_template"
                 | None => template_not_found "t.em"
                 end)
       /\ files st' = files Demo.two_pushed /\ trace st' = trace Demo.two_pushed
       /\ stderr st' = stderr Demo.two_pushed
       /\ template_prefix_path st' = template_prefix_path Demo.two_pushed.
Proof.
  split; [reflexivity|].
  exact (NestedOutcomes.nested_needs_interpreter 4 "t.em" [] Demo.two_pushed eq_refl).
Defined.

End MoreExamples.

Module CycleExamples.

#[local] Existing Instance Cyclic.cycle_world.

(** [/t/loop.em] includes itself: the call ends in [RecursionError], and
    the stale [/out/loop.h] is gone. *)
Lemma inclusion_cycle_overflows_witness :
  expand_template_enter "loop.em" 0 (Some (Path_of "/t")) Cyclic.cycle_start
    = ((expand_template_enter "loop.em" 0 (Some (Path_of "/t")) Cyclic.cycle_start).1,
       Return ("loop.em", Path_of "/t/loop.em", 1%nat))
  /\ exists st',
       expand_template 7 "loop.em" 0 "/out/loop.h" None (Some (Path_of "/t")) None
         Cyclic.cycle_start = (st', Raise recursion_error)
       /\ files st' = delete "/out/loop.h" (files Cyclic.cycle_start)
       /\ template_prefix_path st' = template_prefix_path Cyclic.cycle_start.
Proof.
  assert (Henter : expand_template_enter "loop.em" 0 (Some (Path_of "/t")) Cyclic.cycle_start
            = ((expand_template_enter "loop.em" 0 (Some (Path_of "/t")) Cyclic.cycle_start).1,
               Return ("loop.em", Path_of "/t/loop.em", 1%nat)))
    by (vm_compute; reflexivity).
  split; [exact Henter|].
  refine (CycleFacts.inclusion_cycle_overflows 7 "loop.em" 0 "/out/loop.h" None
            (Some (Path_of "/t")) None Cyclic.cycle_start _ "loop.em" (Path_of "/t/loop.em")
            1%nat (mkFile "loop" 1) ["again "] [] [] Henter _ _).
  - vm_compute. reflexivity.
  - reflexivity.
Defined.

End CycleExamples.

Module PairExamples.

#[local] Existing Instance Pair.pair_world.

(** A run over two IDL tuples with two templates each returns the four
    planned paths, tuple by tuple and, within a tuple, in the order of the
    mapping. *)
Lemma generated_files_are_planned_witness :
  let mapping := [("a.em", "%s.h"); ("b.em", "msg_%s.c")] in
  let generated := ["/out/msg/twist_stamped.h"; "/out/msg/msg_twist_stamped.c";
                    "/out/msg/point.h"; "/out/msg/msg_point.c"] in
  (generate_files 5 "/args.json" mapping None false None Pair.pair_start).2
    = Return generated
  /\ exists args,
       (read_generator_arguments "/args.json" Pair.pair_start).2 = Return args
       /\ idl_tuples args = Some ["/src/pkg:msg/TwistStamped.idl"; "/src/pkg:msg/Point.idl"]
       /\ map Some generated
          = planned_outputs args false mapping (default [] (idl_tuples args))
       /\ length generated
          = (length (default [] (idl_tuples args)) * length mapping)%nat.
Proof.
  intros mapping generated.
  assert (E : generate_files 5 "/args.json" mapping None false None Pair.pair_start
              = ((generate_files 5 "/args.json" mapping None false None
                    Pair.pair_start).1, Return generated))
    by (vm_compute; reflexivity).
  split; [vm_compute; reflexivity|].
  destruct (OrchestratorSetup.generated_files_are_planned 5 "/args.json" mapping
              None false None Pair.pair_start _ _ E) as (args & Hread & Hplan & Hlen).
  exists args. split; [exact Hread|]. split; [|split; [exact Hplan|exact Hlen]].
  vm_compute in Hread. now inversion Hread.
Defined.

End PairExamples.
